(** * The plugin / middleware / hook runtime of @agions/utils

    A shallow embedding of [createPluginSystem] and of the composition
    helpers [pipe] and [compose].

    The system object closes over one mutable [context]; its methods are
    embedded as functions of a state-and-exception monad over that context.
    The context is a JavaScript object: it has own properties and a
    prototype, and the values stored in it are told apart the way the
    runtime tells them apart ([JsValue]). Plugins, middlewares and hooks
    are code supplied by the user: they are represented as finite programs
    ([prog]) over the operations user code can perform, on the system and
    on the context it is handed, and the runtime executes them with
    [exec]. *)

From stdpp Require Import gmap strings list.
From Stdlib Require Import ZArith Ascii.

Set Default Proof Using "Type".

(** ** Composition helpers *)

Section Composition.
Context {T : Type}.

(** [pipe(...fns)]: [fns.reduce((a, b) => (arg) => b(a(arg)))] when there
    are at least two functions. [reduce] without an initial value starts
    from the first element. *)
Definition pipe (fns : list (T -> T)) : T -> T :=
  match fns with
  | [] => fun arg => arg
  | [f] => f
  | f :: rest => fold_left (fun a b => fun arg => b (a arg)) rest f
  end.

(** [compose(...fns)]: [fns.reduce((a, b) => (arg) => a(b(arg)))]. *)
Definition compose (fns : list (T -> T)) : T -> T :=
  match fns with
  | [] => fun arg => arg
  | [f] => f
  | f :: rest => fold_left (fun a b => fun arg => a (b arg)) rest f
  end.
End Composition.

(** ** JavaScript values *)

(** The values that flow through the system as data, told apart as far
    as the runtime can tell them apart. They are the primitive values
    (numbers, strings, booleans, [undefined], [null], ...), plain
    records of such values, and the context object itself. None of
    them can be called, and none has a method the runtime calls
    ([has], [get], [set], [push], [map], [reduce]); functions, arrays
    and [Map]s are not values of this kind: they reach the context by
    the operations of [ctx_op] and by the methods of the system.

    - [KEmptyString]: the empty string, which spreads to no element
      (any other string spreads to strings, which cannot be called);
    - [KNull]: [null], which the setter of [__proto__] accepts;
    - [KSelf]: the context object itself, which that setter refuses;
    - [KRecord o]: a plain record ([{k1: v1, ...}], extensible, with
      the writable own properties [o] and the prototype
      [Object.prototype]), an object the setter of [__proto__] accepts;
    - [KData]: any other primitive value. *)
Inductive vkind (V : Type) : Type :=
| KData
| KEmptyString
| KNull
| KSelf
| KRecord (o : gmap string V).
Arguments KData {V}.
Arguments KEmptyString {V}.
Arguments KNull {V}.
Arguments KSelf {V}.
Arguments KRecord {V} o.

Class JsValue (V : Type) : Type := classify : V -> vkind V.

(** The prototype of the context object: [Object.prototype] for the
    object literal the constructor creates, until the setter of
    [__proto__] replaces it. *)
Inductive prototype (V : Type) : Type :=
| ObjectPrototype
| NullPrototype
| RecordPrototype (o : gmap string V).
Arguments ObjectPrototype {V}.
Arguments NullPrototype {V}.
Arguments RecordPrototype {V} o.

(** The string-keyed properties of [Object.prototype]. All are writable
    data properties but [__proto__], an accessor with a setter. *)
Definition object_prototype_keys : list string :=
  ["constructor"; "__defineGetter__"; "__defineSetter__"; "hasOwnProperty";
   "__lookupGetter__"; "__lookupSetter__"; "isPrototypeOf";
   "propertyIsEnumerable"; "toString"; "valueOf"; "__proto__";
   "toLocaleString"].

(** What code that holds the context object can do with it directly:
    [install] is handed the context, and every callback can reach it
    as [system.context]. [MW] and [HK] are the types of middleware
    functions and of hook and [install] functions.

    - [PluginsSet key name install]: [context.plugins.set(key, {name, install})];
    - [PluginsDelete key]: [context.plugins.delete(key)];
    - [PluginsClear]: [context.plugins.clear()];
    - [AssignPlugins entries]: [context.plugins = new Map(entries)];
    - [MiddlewaresPop]: [context.middlewares.pop()];
    - [MiddlewaresSplice start deleteCount items]:
      [context.middlewares.splice(start, deleteCount, ...items)];
    - [AssignMiddlewares l]: [context.middlewares = l];
    - [HooksSet key bucket]: [context.hooks.set(key, bucket)];
    - [HooksDelete key]: [context.hooks.delete(key)];
    - [HooksClear]: [context.hooks.clear()];
    - [AssignHooks entries]: [context.hooks = new Map(entries)];
    - [Assign key v]: [context[key] = v];
    - [DeleteProp key]: [delete context[key]].

    The [Map]s, arrays and plugin objects these operations store are
    new objects that nothing else holds. *)
Inductive ctx_op (V MW HK : Type) : Type :=
| PluginsSet (key : string) (pname : string) (inst : HK)
| PluginsDelete (key : string)
| PluginsClear
| AssignPlugins (entries : list (string * (string * HK)))
| MiddlewaresPop
| MiddlewaresSplice (start deleteCount : nat) (items : list MW)
| AssignMiddlewares (l : list MW)
| HooksSet (key : string) (bucket : list HK)
| HooksDelete (key : string)
| HooksClear
| AssignHooks (entries : list (string * list HK))
| Assign (key : string) (v : V)
| DeleteProp (key : string).

Arguments PluginsSet {V MW HK} key pname inst.
Arguments PluginsDelete {V MW HK} key.
Arguments PluginsClear {V MW HK}.
Arguments AssignPlugins {V MW HK} entries.
Arguments MiddlewaresPop {V MW HK}.
Arguments MiddlewaresSplice {V MW HK} start deleteCount items.
Arguments AssignMiddlewares {V MW HK} l.
Arguments HooksSet {V MW HK} key bucket.
Arguments HooksDelete {V MW HK} key.
Arguments HooksClear {V MW HK}.
Arguments AssignHooks {V MW HK} entries.
Arguments Assign {V MW HK} key v.
Arguments DeleteProp {V MW HK} key.

(** ** User code *)

Section Model.
Variables (V W : Type).
Context {JS : JsValue V}.

(** A program of user code. [V] is the type of JavaScript values that
    flow through the system, [W] the state owned by user code (counters,
    logs, ...). The index tells whether a continuation is in scope:
    a middleware body is a [prog true], the body of a hook or of a
    plugin's [install] is a [prog false].

    - [Ret v] returns [v]; [Throw e] throws [e];
    - [Next data k] calls the continuation on [data] and goes on as [k]
      of its result (an exception of the continuation propagates);
    - [DoUseMiddleware], [DoHook], [DoExtend] and [DoUse] call the
      methods [useMiddleware], [hook], [extend] and [use] of the system
      and go on;
    - [DoContext op] works on the context object directly;
    - [Effect f] updates the state of user code, [Observe] reads it.

    User code that catches exceptions, keeps a continuation to call it
    after its middleware has returned, calls [applyMiddlewares],
    [callHook] or [callHookSerial] from inside a callback, makes what
    it does depend on what it reads in the context, edits a bucket of
    hooks in place other than by [hook], changes a plugin object, or
    reconfigures the context object ([Object.freeze],
    [Object.defineProperty], ...) is not in this model. *)
#[warnings="-register-all"]
Inductive prog : bool -> Type :=
| Ret {b} (v : V) : prog b
| Throw {b} (e : V) : prog b
| Next (data : V) (k : V -> prog true) : prog true
| DoUseMiddleware {b} (m : V -> prog true) (k : prog b) : prog b
| DoHook {b} (nm : string) (h : list V -> prog false) (k : prog b) : prog b
| DoExtend {b} (nm : string) (v : V) (k : prog b) : prog b
| DoUse {b} (nm : string) (inst : list V -> prog false) (options : list V)
    (k : prog b) : prog b
| DoContext {b} (op : ctx_op V (V -> prog true) (list V -> prog false))
    (k : prog b) : prog b
| Effect {b} (f : W -> W) (k : prog b) : prog b
| Observe {b} (k : W -> prog b) : prog b.

(** [type Middleware = (data, next) => R] *)
Definition Middleware : Type := V -> prog true.

(** [type Hook = (...args) => any] *)
Definition Hook : Type := list V -> prog false.

(** [interface Plugin]. [install] is handed the one context of the
    system as its first argument, before the options: what it does with
    it are the [DoContext] operations of its body. *)
Record Plugin : Type := {
  name : string;
  install : list V -> prog false
}.

(** What a property of the context object holds: one of the containers
    of the runtime (a [Map] of plugins, an array of middlewares, a [Map]
    of buckets of hooks, the options record) or a value. Any key may
    hold a value. The operations of the model store a container only
    under the key it is declared for ("plugins", "middlewares", "hooks",
    "options"), and [slots_typed_kept] below shows that user code cannot
    bring it elsewhere; a method that looks for its container and finds
    a value, or nothing, raises the [TypeError] that JavaScript raises
    for a call of [undefined]. *)
Inductive field : Type :=
| FPlugins (reg : gmap string Plugin)
| FMiddlewares (l : list Middleware)
| FHooks (h : gmap string (list Hook))
| FOptions (o : gmap string V)
| FAny (v : V).

(** Ghost record of the calls the runtime makes into user code. *)
Inductive call : Type :=
| CallInstall (p : Plugin) (options : list V)
| CallMiddleware (index : nat) (m : Middleware) (data : V)
| CallHook (h : Hook) (args : list V).

(** The context object is an extensible plain object: its own
    properties and its prototype. *)
Record State : Type := {
  context : gmap string field;  (* own properties of the context object *)
  proto : prototype V;          (* prototype of the context object *)
  console : list string;        (* lines written by console.warn *)
  world : W;                    (* state owned by user code *)
  calls : list call             (* ghost: calls into user code, oldest first *)
}.

Definition set_context (c : gmap string field) (s : State) : State :=
  {| context := c; proto := proto s; console := console s;
     world := world s; calls := calls s |}.
Definition set_proto (p : prototype V) (s : State) : State :=
  {| context := context s; proto := p; console := console s;
     world := world s; calls := calls s |}.
Definition set_console (l : list string) (s : State) : State :=
  {| context := context s; proto := proto s; console := l;
     world := world s; calls := calls s |}.
Definition set_world (w : W) (s : State) : State :=
  {| context := context s; proto := proto s; console := console s;
     world := w; calls := calls s |}.
Definition set_calls (l : list call) (s : State) : State :=
  {| context := context s; proto := proto s; console := console s;
     world := world s; calls := l |}.

(** ** The monad of the runtime: state and exceptions *)

Inductive exn : Type :=
| Thrown (e : V)        (* a value thrown by user code *)
| TypeError.            (* raised by the JavaScript runtime *)

Inductive result (A : Type) : Type :=
| Ok (a : A)
| Err (e : exn).
Global Arguments Ok {A} a.
Global Arguments Err {A} e.

Definition M (A : Type) : Type := State -> result A * State.

Definition ret {A} (a : A) : M A := fun s => (Ok a, s).
Definition throw {A} (e : exn) : M A := fun s => (Err e, s).
Definition bind {A B} (m : M A) (k : A -> M B) : M B :=
  fun s => match m s with
           | (Ok a, s') => k a s'
           | (Err e, s') => (Err e, s')
           end.

Local Notation "'let*' x := m 'in' k" := (bind m (fun x => k))
  (at level 10, x pattern, m at level 100, k at level 200).

Definition put_field (key : string) (f : field) : M unit :=
  fun s => (Ok tt, set_context (<[key := f]> (context s)) s).
Definition warn (msg : string) : M unit :=
  fun s => (Ok tt, set_console (console s ++ [msg]) s).
Definition log_call (c : call) : M unit :=
  fun s => (Ok tt, set_calls (calls s ++ [c]) s).

(** ** Properties of the context object *)

(** Reading [context[key]]: the own property, or else the property a
    record provides as prototype. [None] is [undefined], or one of the
    built-ins of [Object.prototype]; the runtime reads the keys
    "plugins", "middlewares" and "hooks" only, which [Object.prototype]
    does not have. *)
Definition read_prop (s : State) (key : string) : option field :=
  match context s !! key with
  | Some f => Some f
  | None =>
      match proto s with
      | RecordPrototype o => FAny <$> o !! key
      | _ => None
      end
  end.

Definition get_prop (key : string) : M (option field) :=
  fun s => (Ok (read_prop s key), s).

(** [key in context]: an own property or one found along the prototype
    chain. *)
Definition has_property (s : State) (key : string) : bool :=
  match context s !! key with
  | Some _ => true
  | None =>
      match proto s with
      | ObjectPrototype => bool_decide (key ∈ object_prototype_keys)
      | NullPrototype => false
      | RecordPrototype o =>
          bool_decide (is_Some (o !! key))
          || bool_decide (key ∈ object_prototype_keys)
      end
  end.

(** The setter of [Object.prototype.__proto__]: it replaces the
    prototype by an object or [null], refuses a cycle, and ignores
    every other value. *)
Definition set_prototype (v : V) : M unit :=
  match classify v with
  | KNull => fun s => (Ok tt, set_proto NullPrototype s)
  | KRecord o => fun s => (Ok tt, set_proto (RecordPrototype o) s)
  | KSelf => throw TypeError
  | KData | KEmptyString => ret tt
  end.

(** [context[key] = v]. The properties found along the prototype chain
    are writable data properties, which the assignment shadows by an
    own property, except the accessor [__proto__] of
    [Object.prototype], whose setter it calls. *)
Definition assign_prop (key : string) (v : V) : M unit :=
  fun s =>
    if decide (key = "__proto__") then
      match context s !! key with
      | Some _ => put_field key (FAny v) s
      | None =>
          match proto s with
          | NullPrototype => put_field key (FAny v) s
          | RecordPrototype o =>
              match o !! key with
              | Some _ => put_field key (FAny v) s
              | None => set_prototype v s
              end
          | ObjectPrototype => set_prototype v s
          end
      end
    else put_field key (FAny v) s.

(** The system object: every method that returns [this] returns it. *)
Inductive PluginSystem : Type := system.

Definition dquote : string := String "034"%char EmptyString.

(** ** Methods of the system *)

(** [use(plugin, ...options)]; [run] executes the body of [install]. *)
Definition use_with (run : prog false -> M V)
    (plugin : Plugin) (options : list V) : M PluginSystem :=
  let* slot := get_prop "plugins" in
  match slot with
  | Some (FPlugins reg) =>
      match reg !! name plugin with
      | Some _ =>
          let* _ := warn ("Plugin " +:+ dquote +:+ name plugin +:+ dquote
                          +:+ " is already registered.") in
          ret system
      | None =>
          let* _ := put_field "plugins" (FPlugins (<[name plugin := plugin]> reg)) in
          let* _ := log_call (CallInstall plugin options) in
          let* _ := run (install plugin options) in
          ret system
      end
  | _ => throw TypeError
  end.

(** [useMiddleware(middleware)]: [context.middlewares.push(middleware)] *)
Definition useMiddleware (middleware : Middleware) : M PluginSystem :=
  let* slot := get_prop "middlewares" in
  match slot with
  | Some (FMiddlewares l) =>
      let* _ := put_field "middlewares" (FMiddlewares (l ++ [middleware])) in
      ret system
  | _ => throw TypeError
  end.

(** [hook(name, hook)] *)
Definition hook (nm : string) (h : Hook) : M PluginSystem :=
  let* slot := get_prop "hooks" in
  match slot with
  | Some (FHooks hs) =>
      let hs1 := match hs !! nm with
                 | Some _ => hs
                 | None => <[nm := []]> hs
                 end in
      match hs1 !! nm with
      | Some bucket =>
          let* _ := put_field "hooks" (FHooks (<[nm := bucket ++ [h]]> hs1)) in
          ret system
      | None => throw TypeError
      end
  | _ => throw TypeError
  end.

(** [extend(name, value)] *)
Definition extend (nm : string) (value : V) : M PluginSystem :=
  let* _ := (fun s =>
               if has_property s nm then
                 warn ("API " +:+ dquote +:+ nm +:+ dquote
                       +:+ " already exists. Overwriting it may cause unexpected behavior.") s
               else ret tt s) in
  let* _ := assign_prop nm value in
  ret system.

(** [getPlugin(name)]: [None] is JavaScript's [undefined]. *)
Definition getPlugin (nm : string) : M (option Plugin) :=
  let* slot := get_prop "plugins" in
  match slot with
  | Some (FPlugins reg) => ret (reg !! nm)
  | _ => throw TypeError
  end.

(** ** Working on the context directly *)

(** [new Map(entries)]: a later entry replaces an earlier one of the
    same key. *)
Definition map_of_entries {A} (entries : list (string * A)) : gmap string A :=
  fold_left (fun m e => <[e.1 := e.2]> m) entries ∅.

Definition ctx_apply (op : ctx_op V Middleware Hook) : M unit :=
  match op with
  | PluginsSet key pname inst =>
      let* slot := get_prop "plugins" in
      match slot with
      | Some (FPlugins reg) =>
          put_field "plugins"
            (FPlugins (<[key := {| name := pname; install := inst |}]> reg))
      | _ => throw TypeError
      end
  | PluginsDelete key =>
      let* slot := get_prop "plugins" in
      match slot with
      | Some (FPlugins reg) => put_field "plugins" (FPlugins (delete key reg))
      | _ => throw TypeError
      end
  | PluginsClear =>
      let* slot := get_prop "plugins" in
      match slot with
      | Some (FPlugins reg) => put_field "plugins" (FPlugins ∅)
      | _ => throw TypeError
      end
  | AssignPlugins entries =>
      put_field "plugins"
        (FPlugins (map_of_entries
           (map (fun e => (e.1, {| name := e.2.1; install := e.2.2 |})) entries)))
  | MiddlewaresPop =>
      let* slot := get_prop "middlewares" in
      match slot with
      | Some (FMiddlewares l) => put_field "middlewares" (FMiddlewares (removelast l))
      | _ => throw TypeError
      end
  | MiddlewaresSplice start deleteCount items =>
      let* slot := get_prop "middlewares" in
      match slot with
      | Some (FMiddlewares l) =>
          put_field "middlewares"
            (FMiddlewares (take start l ++ items ++ drop (start + deleteCount) l))
      | _ => throw TypeError
      end
  | AssignMiddlewares l => put_field "middlewares" (FMiddlewares l)
  | HooksSet key bucket =>
      let* slot := get_prop "hooks" in
      match slot with
      | Some (FHooks hs) => put_field "hooks" (FHooks (<[key := bucket]> hs))
      | _ => throw TypeError
      end
  | HooksDelete key =>
      let* slot := get_prop "hooks" in
      match slot with
      | Some (FHooks hs) => put_field "hooks" (FHooks (delete key hs))
      | _ => throw TypeError
      end
  | HooksClear =>
      let* slot := get_prop "hooks" in
      match slot with
      | Some (FHooks hs) => put_field "hooks" (FHooks ∅)
      | _ => throw TypeError
      end
  | AssignHooks entries => put_field "hooks" (FHooks (map_of_entries entries))
  | Assign key v => assign_prop key v
  | DeleteProp key => fun s => (Ok tt, set_context (delete key (context s)) s)
  end.

(** ** Executing user code *)

(** The continuation a program runs under: [next] for a middleware body,
    nothing for a hook or an [install]. *)
Definition cont (b : bool) : Type := if b then V -> M V else unit.

Fixpoint exec {b} (p : prog b) : cont b -> M V :=
  match p in prog b return cont b -> M V with
  | Ret v => fun _ => ret v
  | Throw e => fun _ => throw (Thrown e)
  | Next data k => fun next =>
      let* r := next data in exec (k r) next
  | DoUseMiddleware m k => fun c =>
      let* _ := useMiddleware m in exec k c
  | DoHook nm h k => fun c =>
      let* _ := hook nm h in exec k c
  | DoExtend nm v k => fun c =>
      let* _ := extend nm v in exec k c
  | DoUse nm inst options k => fun c =>
      let* _ := use_with (fun body => exec body tt)
                  {| name := nm; install := inst |} options in
      exec k c
  | DoContext op k => fun c =>
      let* _ := ctx_apply op in exec k c
  | Effect f k => fun c =>
      let* _ := (fun s => (Ok tt, set_world (f (world s)) s)) in exec k c
  | Observe k => fun c =>
      fun s => exec (k (world s)) c s
  end.

Definition use : Plugin -> list V -> M PluginSystem :=
  use_with (fun body => exec body tt).

(** ** The middleware pipeline *)

(** [[...context.middlewares]]: the elements of an array; a value
    spreads only if it is a string, whose elements are strings, and the
    runtime cannot call a string. The result is the list of functions
    [dispatch] will work on, or the [TypeError] the spread or the first
    call raises. *)
Definition spread (slot : option field) : option (list Middleware) :=
  match slot with
  | Some (FMiddlewares l) => Some l
  | Some (FAny v) =>
      match classify v with
      | KEmptyString => Some []
      | _ => None
      end
  | _ => None
  end.

(** [dispatch(index, data)] over the snapshot [middlewares]. The extra
    argument bounds the recursion by the number of middlewares left;
    [dispatch_unfold] below gives the equation the source is written
    with. *)
Fixpoint dispatch_aux (middlewares : list Middleware) (left : nat)
    (index : nat) (data : V) : M V :=
  match middlewares !! index with
  | None => ret data                       (* index >= middlewares.length *)
  | Some middleware =>
      match left with
      | 0 => ret data
      | S left' =>
          let* _ := log_call (CallMiddleware index middleware data) in
          exec (middleware data)
               (fun nextData => dispatch_aux middlewares left' (index + 1) nextData)
      end
  end.

Definition dispatch (middlewares : list Middleware) (index : nat) (data : V) : M V :=
  dispatch_aux middlewares (length middlewares - index) index data.

(** [applyMiddlewares(initialData)] *)
Definition applyMiddlewares (initialData : V) : M V :=
  let* slot := get_prop "middlewares" in
  match spread slot with
  | Some l =>
      let middlewares := l in              (* [...context.middlewares] *)
      dispatch middlewares 0 initialData
  | None => throw TypeError
  end.

(** ** The hook registry *)

(** The runtime calling one hook. *)
Definition call_hook (h : Hook) (args : list V) : M V :=
  let* _ := log_call (CallHook h args) in
  exec (h args) tt.

(** [Array.prototype.map]: the callback runs on the elements from left
    to right and its results are stored in that order. *)
Definition array_map {A B} (callback : A -> M B) (l : list A) : M (list B) :=
  fold_left (fun acc x => let* out := acc in
                          let* y := callback x in
                          ret (out ++ [y]))
            l (ret []).

(** [Array.prototype.reduce] with an initial value. *)
Definition array_reduce {A B} (callback : B -> A -> M B) (l : list A)
    (initialValue : B) : M B :=
  fold_left (fun acc x => let* r := acc in callback r x) l (ret initialValue).

(** [callHook(name, ...args)] *)
Definition callHook (nm : string) (args : list V) : M (list V) :=
  let* slot := get_prop "hooks" in
  match slot with
  | Some (FHooks hs) =>
      let hooks := default [] (hs !! nm) in   (* get(name) || [] *)
      array_map (fun h => call_hook h args) hooks
  | _ => throw TypeError
  end.

(** [callHookSerial(name, initialValue)] *)
Definition callHookSerial (nm : string) (initialValue : V) : M V :=
  let* slot := get_prop "hooks" in
  match slot with
  | Some (FHooks hs) =>
      let hooks := default [] (hs !! nm) in
      array_reduce (fun result h => call_hook h [result]) hooks initialValue
  | _ => throw TypeError
  end.

(** [createPluginSystem(options)]: the state of a new system. [w] is the
    state user code starts from. *)
Definition createPluginSystem (options : gmap string V) (w : W) : State :=
  {| context := <["plugins" := FPlugins ∅]>
                (<["middlewares" := FMiddlewares []]>
                (<["hooks" := FHooks ∅]>
                (<["options" := FOptions options]> ∅)));
     proto := ObjectPrototype;
     console := [];
     world := w;
     calls := [] |}.

End Model.

Arguments Ret {V W b} v.
Arguments Throw {V W b} e.
Arguments Next {V W} data k.
Arguments DoUseMiddleware {V W b} m k.
Arguments DoHook {V W b} nm h k.
Arguments DoExtend {V W b} nm v k.
Arguments DoUse {V W b} nm inst options k.
Arguments DoContext {V W b} op k.
Arguments Effect {V W b} f k.
Arguments Observe {V W b} k.
Arguments Build_Plugin {V W} name install.
Arguments name {V W} p.
Arguments install {V W} p options.
Arguments FPlugins {V W} reg.
Arguments FMiddlewares {V W} l.
Arguments FHooks {V W} h.
Arguments FOptions {V W} o.
Arguments FAny {V W} v.
Arguments CallInstall {V W} p options.
Arguments CallMiddleware {V W} index m data.
Arguments CallHook {V W} h args.
Arguments Build_State {V W} context proto console world calls.
Arguments context {V W} s.
Arguments proto {V W} s.
Arguments console {V W} s.
Arguments world {V W} s.
Arguments calls {V W} s.
Arguments set_context {V W} c s.
Arguments set_proto {V W} p s.
Arguments set_console {V W} l s.
Arguments set_world {V W} w s.
Arguments set_calls {V W} l s.
Arguments Thrown {V} e.
Arguments TypeError {V}.
Arguments Ok {V A} a.
Arguments Err {V A} e.
Arguments ret {V W A} a s.
Arguments throw {V W A} e s.
Arguments bind {V W A B} m k s.
Arguments put_field {V W} key f s.
Arguments warn {V W} msg s.
Arguments log_call {V W} c s.
Arguments read_prop {V W} s key.
Arguments get_prop {V W} key s.
Arguments has_property {V W} s key.
Arguments set_prototype {V W JS} v s.
Arguments assign_prop {V W JS} key v s.
Arguments use_with {V W} run plugin options.
Arguments use {V W JS} plugin options.
Arguments useMiddleware {V W} middleware.
Arguments hook {V W} nm h.
Arguments extend {V W JS} nm value.
Arguments getPlugin {V W} nm.
Arguments map_of_entries {A} entries.
Arguments ctx_apply {V W JS} op.
Arguments exec {V W JS b} p c.
Arguments spread {V W JS} slot.
Arguments dispatch_aux {V W JS} middlewares left index data.
Arguments dispatch {V W JS} middlewares index data.
Arguments applyMiddlewares {V W JS} initialData.
Arguments call_hook {V W JS} h args.
Arguments array_map {V W A B} callback l.
Arguments array_reduce {V W A B} callback l initialValue.
Arguments callHook {V W JS} nm args.
Arguments callHookSerial {V W JS} nm initialValue.
Arguments createPluginSystem {V W} options w.

Notation "'let*' x := m 'in' k" := (bind m (fun x => k))
  (at level 10, x pattern, m at level 100, k at level 200).

(** The value a computation ends with and the state it leaves. *)
Definition outcome {V W A} (r : result V A * State V W) : result V A := fst r.
Definition final {V W A} (r : result V A * State V W) : State V W := snd r.

(** ** Specification-side notions *)

Section Notions.
Context {V W : Type} {JS : JsValue V}.

(** The indices of the middleware calls in a record of calls. *)
Definition mw_indices (l : list (call V W)) : list nat :=
  omap (fun c => match c with
                 | CallMiddleware index _ _ => Some index
                 | _ => None
                 end) l.

(** A middleware "invokes its continuation with its input data unchanged
    and returns the continuation's result": whatever continuation it is
    handed, running it on [d] amounts to some effects of its own, one
    call of the continuation on [d], further effects, and the result of
    that call. *)
Definition forwards (m : Middleware V W) : Prop :=
  forall d s, exists s1 (post : V -> State V W -> State V W),
    forall next, exec (m d) next s =
      match next d s1 with
      | (Ok r, s2) => (Ok r, post r s2)
      | (Err e, s2) => (Err e, s2)
      end.

(** Bodies of that kind: effects on the state of user code, which
    cannot throw, around one call of the continuation on [d] whose
    result is returned. *)
Inductive gives_back (r : V) : prog V W true -> Prop :=
| gives_back_Ret : gives_back r (Ret r)
| gives_back_Effect f k : gives_back r k -> gives_back r (Effect f k)
| gives_back_Observe k : (forall w, gives_back r (k w)) -> gives_back r (Observe k).

Inductive hands_on (d : V) : prog V W true -> Prop :=
| hands_on_Next k : (forall r, gives_back r (k r)) -> hands_on d (Next d k)
| hands_on_Effect f k : hands_on d k -> hands_on d (Effect f k)
| hands_on_Observe k : (forall w, hands_on d (k w)) -> hands_on d (Observe k).

(** As [forwards], but the data handed on may differ from the input. *)
Definition relays (m : Middleware V W) : Prop :=
  forall d s, exists d' s1 (post : V -> State V W -> State V W),
    forall next, exec (m d) next s =
      match next d' s1 with
      | (Ok r, s2) => (Ok r, post r s2)
      | (Err e, s2) => (Err e, s2)
      end.

(** A middleware never calls its continuation: what it does is the same
    under every continuation. *)
Definition ignores_next (m : Middleware V W) : Prop :=
  forall d s (next next' : V -> M V W V),
    exec (m d) next s = exec (m d) next' s.

(** Syntactic counterpart of [ignores_next]: no [Next] in the body. *)
Inductive no_next : forall {b}, prog V W b -> Prop :=
| no_next_Ret b v : no_next (@Ret V W b v)
| no_next_Throw b e : no_next (@Throw V W b e)
| no_next_DoUseMiddleware b m (k : prog V W b) :
    no_next k -> no_next (DoUseMiddleware m k)
| no_next_DoHook b nm h (k : prog V W b) :
    no_next k -> no_next (DoHook nm h k)
| no_next_DoExtend b nm v (k : prog V W b) :
    no_next k -> no_next (DoExtend nm v k)
| no_next_DoUse b nm inst options (k : prog V W b) :
    no_next k -> no_next (DoUse nm inst options k)
| no_next_DoContext b op (k : prog V W b) :
    no_next k -> no_next (DoContext op k)
| no_next_Effect b f (k : prog V W b) :
    no_next k -> no_next (Effect f k)
| no_next_Observe b (k : W -> prog V W b) :
    (forall w, no_next (k w)) -> no_next (Observe k).

(** Successive middleware indices never jump ahead by more than one:
    index [j + 1] is only entered from index [j] or beyond. *)
Fixpoint steps_up (prev : nat) (l : list nat) : Prop :=
  match l with
  | [] => True
  | j :: l' => j <= S prev /\ steps_up j l'
  end.

(** The indices visited by a run of the chain entered at index [k]. *)
Definition chain_from (k : nat) (l : list nat) : Prop :=
  match l with
  | [] => True
  | j :: l' => j = k /\ steps_up k l' /\ Forall (fun i => k <= i) l'
  end.

(** An operation on the context that leaves the plugin registry alone:
    it neither works on the [Map] of plugins nor assigns or deletes the
    property "plugins". *)
Definition spares_plugins (op : ctx_op V (Middleware V W) (Hook V W)) : Prop :=
  match op with
  | PluginsSet _ _ _ | PluginsDelete _ | PluginsClear | AssignPlugins _ => False
  | Assign key _ | DeleteProp key => key <> "plugins"
  | MiddlewaresPop | MiddlewaresSplice _ _ _ | AssignMiddlewares _
  | HooksSet _ _ | HooksDelete _ | HooksClear | AssignHooks _ => True
  end.

(** A program that leaves the plugin registry to [use]: it never stores
    a value under the key "plugins", by [extend] or by an assignment,
    never deletes that property, and never sets, deletes or clears an
    entry of the [Map] itself. *)
Inductive keeps_plugins : forall {b}, prog V W b -> Prop :=
| keeps_Ret b v : keeps_plugins (@Ret V W b v)
| keeps_Throw b e : keeps_plugins (@Throw V W b e)
| keeps_Next d k : (forall r, keeps_plugins (k r)) -> keeps_plugins (Next d k)
| keeps_DoUseMiddleware b m (k : prog V W b) :
    keeps_plugins k -> keeps_plugins (DoUseMiddleware m k)
| keeps_DoHook b nm h (k : prog V W b) :
    keeps_plugins k -> keeps_plugins (DoHook nm h k)
| keeps_DoExtend b nm v (k : prog V W b) :
    nm <> "plugins" -> keeps_plugins k -> keeps_plugins (DoExtend nm v k)
| keeps_DoUse b nm inst options (k : prog V W b) :
    keeps_plugins (inst options) -> keeps_plugins k ->
    keeps_plugins (DoUse nm inst options k)
| keeps_DoContext b op (k : prog V W b) :
    spares_plugins op -> keeps_plugins k -> keeps_plugins (DoContext op k)
| keeps_Effect b f (k : prog V W b) :
    keeps_plugins k -> keeps_plugins (Effect f k)
| keeps_Observe b (k : W -> prog V W b) :
    (forall w, keeps_plugins (k w)) -> keeps_plugins (Observe k).

(** The hooks registered under a name, in the order of the bucket;
    [None] when the context has no hook registry. *)
Definition hooks_of (s : State V W) (nm : string) : option (list (Hook V W)) :=
  match context s !! "hooks" with
  | Some (FHooks hs) => Some (default [] (hs !! nm))
  | _ => None
  end.

(** The middleware list of the context. *)
Definition middlewares_of (s : State V W) : option (list (Middleware V W)) :=
  match context s !! "middlewares" with
  | Some (FMiddlewares l) => Some l
  | _ => None
  end.

(** Fan-out as the specification words it: every hook in order, each on
    the same arguments, results collected in the same order. *)
Fixpoint fanout (hs : list (Hook V W)) (args : list V) : M V W (list V) :=
  match hs with
  | [] => ret []
  | h :: rest =>
      let* r := call_hook h args in
      let* rs := fanout rest args in
      ret (r :: rs)
  end.

(** Serial reduction as the specification words it: the first hook gets
    the initial value, each later hook the value its predecessor
    returned. *)
Fixpoint serial (hs : list (Hook V W)) (v : V) : M V W V :=
  match hs with
  | [] => ret v
  | h :: rest => let* r := call_hook h [v] in serial rest r
  end.

(** A hook that computes its result from its arguments and does nothing
    else. *)
Definition pure_hook (f : list V -> V) : Hook V W := fun args => Ret (f args).

(** Registering a list of middlewares, one [useMiddleware] call each. *)
Fixpoint useMiddleware_each (ms : list (Middleware V W)) : M V W PluginSystem :=
  match ms with
  | [] => ret system
  | m :: rest => let* _ := useMiddleware m in useMiddleware_each rest
  end.

(** A middleware body that calls its continuation once for each element
    of [ds], in order, and goes on with the list of results. *)
Fixpoint next_each (ds : list V) (k : list V -> prog V W true) : prog V W true :=
  match ds with
  | [] => k []
  | d :: ds' => Next d (fun r => next_each ds' (fun rs => k (r :: rs)))
  end.

(** Running a continuation on each element of [ds] in turn. *)
Fixpoint run_each (next : V -> M V W V) (ds : list V) : M V W (list V) :=
  match ds with
  | [] => ret []
  | d :: ds' =>
      let* r := next d in
      let* rs := run_each next ds' in
      ret (r :: rs)
  end.

(** [P] holds of the calls every use of the continuation adds. *)
Definition cont_calls (P : list (call V W) -> Prop) {b} : cont V W b -> Prop :=
  match b with
  | true => fun next =>
      forall d s, exists l, calls (final (next d s)) = calls s ++ l /\ P l
  | false => fun _ => True
  end.

(** What is recorded by a run of the chain over the snapshot [ms]
    entered at index [k]: the indices follow the chain, and the
    middleware called at an index is the one the snapshot holds there. *)
Definition chain_calls (ms : list (Middleware V W)) (k : nat) (l : list (call V W)) : Prop :=
  chain_from k (mw_indices l)
  /\ forall j m d, CallMiddleware j m d ∈ l -> ms !! j = Some m.


(** The plugin registered under a name. *)
Definition registered (s : State V W) (nm : string) (p : Plugin V W) : Prop :=
  exists reg, context s !! "plugins" = Some (FPlugins reg) /\ reg !! nm = Some p.

(** The state in which [install] starts when [use] accepts [p]: [p] is
    in the registry [reg] and the call is on record. *)
Definition install_start (p : Plugin V W) (options : list V)
    (reg : gmap string (Plugin V W)) (s : State V W) : State V W :=
  set_calls (calls s ++ [CallInstall p options])
    (set_context (<["plugins" := FPlugins (<[name p := p]> reg)]> (context s)) s).

(** Every use of the continuation keeps [pl] registered under [nm]. *)
Definition cont_keeps (nm : string) (pl : Plugin V W) {b} : cont V W b -> Prop :=
  match b with
  | true => fun next =>
      forall d s, registered s nm pl -> registered (final (next d s)) nm pl
  | false => fun _ => True
  end.
End Notions.

(** ** Further notions *)

Section Composition2.
Context {T : Type}.

(** The [compose] method of the system object: the same body as the
    exported [compose]. *)
Definition system_compose (fns : list (T -> T)) : T -> T :=
  match fns with
  | [] => fun arg => arg
  | [f] => f
  | f :: rest => fold_left (fun a b => fun arg => a (b arg)) rest f
  end.
End Composition2.

Section Notions2.
Context {V W : Type} {JS : JsValue V}.

(** Registering hooks one [hook] call after the other. *)
Fixpoint hook_each (regs : list (string * Hook V W)) : M V W PluginSystem :=
  match regs with
  | [] => ret system
  | (nm, h) :: rest => let* _ := hook nm h in hook_each rest
  end.

(** The hooks a list of registrations puts under [nm], in order. *)
Definition hooks_for (nm : string) (regs : list (string * Hook V W)) : list (Hook V W) :=
  omap (fun r => if decide (fst r = nm) then Some (snd r) else None) regs.

(** The names of the plugins whose [install] a record of calls shows. *)
Definition install_names (l : list (call V W)) : list string :=
  omap (fun c => match c with
                 | CallInstall p _ => Some (name p)
                 | _ => None
                 end) l.

(** No plugin name was installed twice, and what was installed is in the
    registry as long as the context holds one. *)
Definition installs_once (s : State V W) : Prop :=
  NoDup (install_names (calls s))
  /\ forall reg, context s !! "plugins" = Some (FPlugins reg) ->
       forall n, n ∈ install_names (calls s) -> is_Some (reg !! n).

Definition cont_installs_once {b} : cont V W b -> Prop :=
  match b with
  | true => fun next =>
      forall d s, installs_once s -> installs_once (final (next d s))
  | false => fun _ => True
  end.

(** A middleware that changes the data on the way in with [f] and the
    result on the way out with [g]. *)
Definition around (f g : V -> V) : Middleware V W :=
  fun d => Next (f d) (fun r => Ret (g r)).

(** A hook that throws. *)
Definition throwing_hook (e : V) : Hook V W := fun _ => Throw e.

(** User code that calls no method of the system and does not work on
    the context: it only computes, calls its continuation and works on
    its own state. *)
Inductive registers_nothing : forall {b}, prog V W b -> Prop :=
| registers_nothing_Ret b v : registers_nothing (@Ret V W b v)
| registers_nothing_Throw b e : registers_nothing (@Throw V W b e)
| registers_nothing_Next d k :
    (forall r, registers_nothing (k r)) -> registers_nothing (Next d k)
| registers_nothing_Effect b f (k : prog V W b) :
    registers_nothing k -> registers_nothing (Effect f k)
| registers_nothing_Observe b (k : W -> prog V W b) :
    (forall w, registers_nothing (k w)) -> registers_nothing (Observe k).

Definition cont_same_context {b} : cont V W b -> Prop :=
  match b with
  | true => fun next =>
      forall d s, context (final (next d s)) = context s
                  /\ console (final (next d s)) = console s
  | false => fun _ => True
  end.

(** The three properties the methods work on hold what the constructor
    put there: a [Map], an array and a [Map]. *)
Definition well_formed (s : State V W) : Prop :=
  (exists reg, context s !! "plugins" = Some (FPlugins reg))
  /\ (exists l, context s !! "middlewares" = Some (FMiddlewares l))
  /\ (exists hs, context s !! "hooks" = Some (FHooks hs)).

(** An operation on the context that leaves the three properties in
    place: it neither assigns a value to one of them nor deletes one,
    and it does not assign to [__proto__]. Operations on the [Map]s and
    on the array, and assignments of a new [Map] or array, are of that
    kind. *)
Definition spares_slots_op (op : ctx_op V (Middleware V W) (Hook V W)) : Prop :=
  match op with
  | Assign key _ =>
      key <> "plugins" /\ key <> "middlewares" /\ key <> "hooks"
      /\ key <> "__proto__"
  | DeleteProp key =>
      key <> "plugins" /\ key <> "middlewares" /\ key <> "hooks"
  | PluginsSet _ _ _ | PluginsDelete _ | PluginsClear | AssignPlugins _
  | MiddlewaresPop | MiddlewaresSplice _ _ _ | AssignMiddlewares _
  | HooksSet _ _ | HooksDelete _ | HooksClear | AssignHooks _ => True
  end.

(** User code that, while it runs, stores no value under the keys
    "plugins", "middlewares" and "hooks", by [extend] or by an
    assignment, deletes none of them, and leaves [__proto__] alone. *)
Inductive spares_slots : forall {b}, prog V W b -> Prop :=
| spares_Ret b v : spares_slots (@Ret V W b v)
| spares_Throw b e : spares_slots (@Throw V W b e)
| spares_Next d k : (forall r, spares_slots (k r)) -> spares_slots (Next d k)
| spares_DoUseMiddleware b m (k : prog V W b) :
    spares_slots k -> spares_slots (DoUseMiddleware m k)
| spares_DoHook b nm h (k : prog V W b) :
    spares_slots k -> spares_slots (DoHook nm h k)
| spares_DoExtend b nm v (k : prog V W b) :
    nm <> "plugins" -> nm <> "middlewares" -> nm <> "hooks" ->
    nm <> "__proto__" ->
    spares_slots k -> spares_slots (DoExtend nm v k)
| spares_DoUse b nm inst options (k : prog V W b) :
    spares_slots (inst options) -> spares_slots k ->
    spares_slots (DoUse nm inst options k)
| spares_DoContext b op (k : prog V W b) :
    spares_slots_op op -> spares_slots k -> spares_slots (DoContext op k)
| spares_Effect b f (k : prog V W b) :
    spares_slots k -> spares_slots (Effect f k)
| spares_Observe b (k : W -> prog V W b) :
    (forall w, spares_slots (k w)) -> spares_slots (Observe k).

(** A run that keeps the context well formed and does not end in a
    [TypeError]. *)
Definition sound_run {A} (r : result V A * State V W) : Prop :=
  well_formed (final r) /\ outcome r <> Err TypeError.

Definition cont_sound {b} : cont V W b -> Prop :=
  match b with
  | true => fun next => forall d s, well_formed s -> sound_run (next d s)
  | false => fun _ => True
  end.

(** Every container of the runtime sits under the key it is declared
    for. *)
Definition slot_kind (key : string) (f : field V W) : Prop :=
  match f with
  | FPlugins _ => key = "plugins"
  | FMiddlewares _ => key = "middlewares"
  | FHooks _ => key = "hooks"
  | FOptions _ => key = "options"
  | FAny _ => True
  end.

Definition slots_typed (s : State V W) : Prop :=
  map_Forall slot_kind (context s).

Definition cont_typed {b} : cont V W b -> Prop :=
  match b with
  | true => fun next => forall d s, slots_typed s -> slots_typed (final (next d s))
  | false => fun _ => True
  end.

(** The run a list of middlewares defines, as the specification has
    it: the list fixes which middlewares there are, their order and
    their number; the middleware at the head is called on the data with
    the run of the rest as its continuation, and the data is the result
    when the list is used up. The context plays no part in it. *)
Fixpoint chain (rest : list (Middleware V W)) (index : nat) (data : V) : M V W V :=
  match rest with
  | [] => ret data
  | m :: rest' =>
      let* _ := log_call (CallMiddleware index m data) in
      exec (m data) (fun nextData => chain rest' (S index) nextData)
  end.

(** Two continuations that do the same. *)
Definition cont_eq {b} : cont V W b -> cont V W b -> Prop :=
  match b with
  | true => fun next next' => forall d s, next d s = next' d s
  | false => fun _ _ => True
  end.

(** What user code can do to the list of middlewares of the context:
    [useMiddleware(m)], [context.middlewares.pop()],
    [context.middlewares.splice(start, deleteCount, ...items)] and
    [context.middlewares = l]. *)
Inductive mw_edit : Type :=
| Register (m : Middleware V W)
| PopLast
| SpliceAt (start deleteCount : nat) (items : list (Middleware V W))
| ReplaceBy (l : list (Middleware V W)).

(** The list an edit makes of a list. *)
Definition apply_edit (e : mw_edit) (l : list (Middleware V W)) : list (Middleware V W) :=
  match e with
  | Register m => l ++ [m]
  | PopLast => removelast l
  | SpliceAt start deleteCount items =>
      take start l ++ items ++ drop (start + deleteCount) l
  | ReplaceBy l' => l'
  end.

(** The user code that makes an edit, and goes on as [k]. *)
Definition edit_then {b} (e : mw_edit) (k : prog V W b) : prog V W b :=
  match e with
  | Register m => DoUseMiddleware m k
  | PopLast => DoContext MiddlewaresPop k
  | SpliceAt start deleteCount items =>
      DoContext (MiddlewaresSplice start deleteCount items) k
  | ReplaceBy l' => DoContext (AssignMiddlewares l') k
  end.

(** A middleware that edits the list of middlewares of the context
    while the chain runs, then changes the data on the way in with [f]
    and the result on the way out with [g]. *)
Definition editing_around (e : mw_edit) (f g : V -> V) : Middleware V W :=
  fun d => edit_then e (Next (f d) (fun r => Ret (g r))).
End Notions2.

(** ** Concrete user code

    Values are integers and the state of user code is a counter. An
    integer is a number: the runtime finds nothing special about it. *)

#[global] Instance Z_JsValue : JsValue Z := fun _ => KData.

Definition forward : Middleware Z nat := fun d => Next d (fun r => Ret r).

Definition count_calls : Middleware Z nat :=
  fun d => Effect S (Next d (fun r => Effect S (Ret r))).

Definition add_one_after : Middleware Z nat :=
  fun d => Next d (fun r => Ret (r + 1)%Z).

Definition double_before : Middleware Z nat :=
  fun d => Next (2 * d)%Z (fun r => Ret r).

Definition answer_zero : Middleware Z nat := fun _ => Ret 0%Z.

Definition register_then_forward : Middleware Z nat :=
  fun d => DoUseMiddleware answer_zero (Next d (fun r => Ret r)).

Definition ask_twice : Middleware Z nat :=
  fun d => next_each [d; (d + 10)%Z] (fun rs => Ret (foldr Z.add 0%Z rs)).

Definition plus_one : list Z -> Z := fun args => (hd 0 args + 1)%Z.
Definition times_two : list Z -> Z := fun args => (hd 0 args * 2)%Z.

Definition counting_plugin : Plugin Z nat :=
  {| name := "p"; install := fun _ => Effect S (Ret 0%Z) |}.

Definition second_plugin : Plugin Z nat :=
  {| name := "p"; install := fun _ => Effect (fun n => n + 100) (Throw 1%Z) |}.

Definition failing_plugin : Plugin Z nat :=
  {| name := "q"; install := fun _ => Effect S (Throw 13%Z) |}.

Definition clobbering_plugin : Plugin Z nat :=
  {| name := "q"; install := fun _ => DoExtend "plugins" 0%Z (Throw 13%Z) |}.

(** A new system, and systems with some registrations made. *)
Definition fresh : State Z nat := createPluginSystem ∅ 0.

Definition with_middlewares (ms : list (Middleware Z nat)) : State Z nat :=
  final (useMiddleware_each ms fresh).

Definition with_hooks : State Z nat :=
  final (hook "e" (pure_hook times_two) (final (hook "e" (pure_hook plus_one) fresh))).

(** Further user code for the additional properties. *)

Definition wiring_plugin : Plugin Z nat :=
  {| name := "w";
     install := fun _ =>
       DoUseMiddleware forward
         (DoHook "e" (pure_hook plus_one) (DoExtend "log" 1%Z (Ret 0%Z))) |}.

Definition onion_layers : list ((Z -> Z) * (Z -> Z)) :=
  [(Z.add 1, Z.mul 2); (Z.mul 3, fun r => r - 4)]%Z.

Definition with_throwing_hooks : State Z nat :=
  final (hook_each [("e", pure_hook plus_one);
                    ("e", throwing_hook 9%Z);
                    ("e", pure_hook times_two)] fresh).

(** Middlewares that edit the list of middlewares while the chain runs:
    the first registers a further middleware, the second empties the
    list, the third registers another. *)
Definition editing_layers : list (mw_edit (V:=Z) (W:=nat) * (Z -> Z) * (Z -> Z)) :=
  [(Register answer_zero, Z.add 1, Z.mul 2);
   (SpliceAt 0 4 [], Z.mul 3, fun r => r - 4);
   (Register forward, fun d => d, fun r => r)]%Z.

(** Plugins whose [install] works on the registry itself. *)
Definition self_deleting_plugin : Plugin Z nat :=
  {| name := "q";
     install := fun _ => DoContext (PluginsDelete "q") (Throw 13%Z) |}.

Definition registry_replacing_plugin : Plugin Z nat :=
  {| name := "r";
     install := fun _ => DoContext (AssignPlugins []) (Ret 0%Z) |}.

(** Values for the examples on the properties of the context: numbers,
    strings, [null], the context object itself and plain records of
    numbers. *)
Inductive jsdata : Type :=
| JNum (z : Z)
| JStr (t : string)
| JNull
| JContext
| JRecord (o : gmap string Z).

#[global] Instance jsdata_JsValue : JsValue jsdata := fun v =>
  match v with
  | JNum _ => KData
  | JStr t => match t with
              | EmptyString => KEmptyString
              | String _ _ => KData
              end
  | JNull => KNull
  | JContext => KSelf
  | JRecord o => KRecord (JNum <$> o)
  end.

Definition fresh_js : State jsdata nat := createPluginSystem ∅ 0.

(** * Properties *)

(** ** Composition helpers *)

Section CompositionFacts.
Context {T : Type}.

Lemma pipe_fold (rest : list (T -> T)) (a : T -> T) (x : T) :
  fold_left (fun a b => fun arg => b (a arg)) rest a x
  = fold_left (fun acc h => h acc) rest (a x).
Proof.
  revert a. induction rest as [|g rest IH]; intros a; simpl; [done|].
  by rewrite IH.
Qed.

Lemma compose_fold (rest : list (T -> T)) (a : T -> T) (x : T) :
  fold_left (fun a b => fun arg => a (b arg)) rest a x
  = a (fold_right (fun h acc => h acc) x rest).
Proof.
  revert a. induction rest as [|g rest IH]; intros a; simpl; [done|].
  by rewrite IH.
Qed.

Lemma pipe_as_fold (fns : list (T -> T)) (x : T) :
  pipe fns x = fold_left (fun acc h => h acc) fns x.
Proof.
  destruct fns as [|h [|h' rest]]; [done..|].
  unfold pipe. by rewrite pipe_fold.
Qed.

Lemma compose_as_fold (fns : list (T -> T)) (x : T) :
  compose fns x = fold_right (fun h acc => h acc) x fns.
Proof.
  destruct fns as [|h [|h' rest]]; [done..|].
  unfold compose. by rewrite compose_fold.
Qed.

(** C9. [pipe(f, g)(x) = g(f(x))] and [pipe] applies its functions left
    to right; [compose(f, g)(x) = f(g(x))] and [compose] applies them
    right to left; with no function both are the identity function, and
    a single function is returned as it is. *)
Theorem pipe_compose_order (f g : T -> T) (fns : list (T -> T)) (x : T) :
  pipe [f; g] x = g (f x)
  /\ compose [f; g] x = f (g x)
  /\ pipe fns x = fold_left (fun acc h => h acc) fns x
  /\ compose fns x = fold_right (fun h acc => h acc) x fns
  /\ pipe [] = (fun arg : T => arg)
  /\ compose [] = (fun arg : T => arg)
  /\ pipe [f] = f
  /\ compose [f] = f.
Proof.
  repeat split.
  - destruct fns as [|h [|h' rest]]; [done..|].
    unfold pipe. by rewrite pipe_fold.
  - destruct fns as [|h [|h' rest]]; [done..|].
    unfold compose. by rewrite compose_fold.
Qed.
End CompositionFacts.

(** ** The runtime *)

Section Properties.
Context {V W : Type} {JS : JsValue V}.
Implicit Types (s : State V W) (ms : list (Middleware V W)).

(** *** The monad *)

Lemma bind_assoc {A B C} (m : M V W A) (f : A -> M V W B) (g : B -> M V W C) s :
  bind (bind m f) g s = bind m (fun a => bind (f a) g) s.
Proof. unfold bind. by destruct (m s) as [[a|e] s']. Qed.

Lemma bind_ret_r {A} (m : M V W A) s : bind m ret s = m s.
Proof. unfold bind, ret. by destruct (m s) as [[a|e] s']. Qed.

(** *** [dispatch] as the source writes it *)

Lemma dispatch_unfold ms index data s :
  dispatch ms index data s =
    match ms !! index with
    | None => ret data s
    | Some middleware =>
        (let* _ := log_call (CallMiddleware index middleware data) in
         exec (middleware data) (fun nextData => dispatch ms (index + 1) nextData)) s
    end.
Proof.
  unfold dispatch.
  destruct (ms !! index) as [m|] eqn:Hm.
  - pose proof (lookup_lt_Some _ _ _ Hm) as Hlt.
    replace (length ms - index) with (S (length ms - (index + 1))) by lia.
    simpl. by rewrite Hm.
  - destruct (length ms - index); simpl; by rewrite Hm.
Qed.

Lemma dispatch_beyond ms index data s :
  length ms <= index -> dispatch ms index data s = (Ok data, s).
Proof.
  intros Hle. rewrite dispatch_unfold.
  by rewrite (lookup_ge_None_2 ms index Hle).
Qed.

(** *** Reading the properties of the context *)

Lemma read_prop_own s key f :
  context s !! key = Some f -> read_prop s key = Some f.
Proof. unfold read_prop. by intros ->. Qed.

(** What the prototype provides is a value, never one of the
    containers of the runtime. *)
Lemma read_prop_inherited s key :
  context s !! key = None ->
  read_prop s key = None \/ exists v, read_prop s key = Some (FAny v).
Proof.
  unfold read_prop. intros ->. destruct (proto s) as [| |o]; eauto.
  destruct (o !! key); simpl; eauto.
Qed.

Ltac read_slot s key :=
  let Hown := fresh "Hown" in
  let f := fresh "f" in
  destruct (context s !! key) as [f|] eqn:Hown;
  [rewrite (read_prop_own s key f Hown)
  |destruct (read_prop_inherited s key Hown) as [-> | [? ->]]].

Lemma read_prop_plugins s reg :
  read_prop s "plugins" = Some (FPlugins reg) ->
  context s !! "plugins" = Some (FPlugins reg).
Proof. read_slot s "plugins"; congruence. Qed.

(** *** What the registration methods do to the state *)

Lemma useMiddleware_run m s :
  useMiddleware m s =
    match middlewares_of s with
    | Some l => (Ok system,
                 set_context (<["middlewares" := FMiddlewares (l ++ [m])]> (context s)) s)
    | None => (Err TypeError, s)
    end.
Proof.
  unfold useMiddleware, middlewares_of, bind, get_prop; simpl.
  read_slot s "middlewares"; [by destruct f|done..].
Qed.

Lemma hook_run nm h s :
  hook nm h s =
    match hooks_of s nm with
    | Some bucket =>
        (Ok system,
         set_context (<["hooks" := FHooks (<[nm := bucket ++ [h]]>
            (match context s !! "hooks" with
             | Some (FHooks hs) => hs
             | _ => ∅
             end))]> (context s)) s)
    | None => (Err TypeError, s)
    end.
Proof.
  unfold hook, hooks_of, bind, get_prop; simpl.
  read_slot s "hooks"; [|done..].
  destruct f as [| |hs| |]; try done.
  destruct (hs !! nm) as [bucket|] eqn:Hb; simpl.
  - by rewrite Hb.
  - rewrite lookup_insert_eq. simpl. by rewrite insert_insert_eq.
Qed.

Lemma useMiddleware_calls m s : calls (final (useMiddleware m s)) = calls s.
Proof. rewrite useMiddleware_run. by destruct (middlewares_of s). Qed.

Lemma hook_calls nm h s : calls (final (hook nm h s)) = calls s.
Proof. rewrite hook_run. by destruct (hooks_of s nm). Qed.

(** *** Assignments to the context *)

Lemma set_prototype_frame (v : V) s :
  context (final (set_prototype v s)) = context s
  /\ console (final (set_prototype v s)) = console s
  /\ world (final (set_prototype v s)) = world s
  /\ calls (final (set_prototype v s)) = calls s.
Proof. unfold set_prototype. by destruct (classify v). Qed.

Lemma assign_prop_plain key (v : V) s :
  key <> "__proto__" ->
  assign_prop key v s = (Ok tt, set_context (<[key := FAny v]> (context s)) s).
Proof. intros Hne. unfold assign_prop. by destruct (decide (key = "__proto__")). Qed.

(** An assignment stores the value under the key or, for the key
    [__proto__], calls the setter. *)
Lemma assign_prop_cases key (v : V) s :
  assign_prop key v s = put_field key (FAny v) s
  \/ (key = "__proto__" /\ assign_prop key v s = set_prototype v s).
Proof.
  unfold assign_prop. destruct (decide (key = "__proto__")) as [->|]; [|by left].
  destruct (context s !! "__proto__"); [by left|].
  destruct (proto s) as [| |o]; [by right|by left|].
  destruct (o !! "__proto__"); [by left|by right].
Qed.

Lemma assign_prop_frame key (v : V) s :
  console (final (assign_prop key v s)) = console s
  /\ world (final (assign_prop key v s)) = world s
  /\ calls (final (assign_prop key v s)) = calls s.
Proof.
  destruct (assign_prop_cases key v s) as [-> | [_ ->]]; [done|].
  by destruct (set_prototype_frame v s) as (_ & ? & ? & ?).
Qed.

Lemma assign_prop_others key (v : V) s key' :
  key' <> key ->
  context (final (assign_prop key v s)) !! key' = context s !! key'.
Proof.
  intros Hne. destruct (assign_prop_cases key v s) as [-> | [_ ->]].
  - simpl. by rewrite lookup_insert_ne.
  - by destruct (set_prototype_frame v s) as (-> & _).
Qed.

(** *** [extend] *)

Lemma extend_run nm (v : V) s :
  nm <> "__proto__" ->
  extend nm v s =
    (Ok system,
     set_context (<[nm := FAny v]> (context s))
       (if has_property s nm then
          set_console (console s ++
            ["API " +:+ dquote +:+ nm +:+ dquote
             +:+ " already exists. Overwriting it may cause unexpected behavior."]) s
        else s)).
Proof.
  intros Hne. unfold extend, bind.
  destruct (has_property s nm); simpl; by rewrite assign_prop_plain.
Qed.

Lemma extend_frame nm (v : V) s :
  world (final (extend nm v s)) = world s
  /\ calls (final (extend nm v s)) = calls s
  /\ forall key, key <> nm -> context (final (extend nm v s)) !! key = context s !! key.
Proof.
  unfold extend, bind.
  destruct (has_property s nm); simpl;
    match goal with |- context [assign_prop nm v ?s0] =>
      destruct (assign_prop_frame nm v s0) as (_ & Hw & Hc);
      pose proof (assign_prop_others nm v s0) as Ho;
      destruct (assign_prop nm v s0) as [[[]|e] s1] end;
    simpl in *; auto.
Qed.

Lemma extend_calls nm (v : V) s : calls (final (extend nm v s)) = calls s.
Proof. by destruct (extend_frame nm v s) as (_ & ? & _). Qed.

(** *** Working on the context directly *)

Lemma ctx_apply_frame (op : ctx_op V (Middleware V W) (Hook V W)) s :
  world (final (ctx_apply op s)) = world s
  /\ calls (final (ctx_apply op s)) = calls s.
Proof.
  destruct op; unfold ctx_apply, bind, get_prop; simpl;
    try (match goal with |- context [read_prop s ?key] =>
           destruct (read_prop s key) as [[]|] end; done);
    try done.
  by destruct (assign_prop_frame key v s) as (_ & ? & ?).
Qed.

Lemma ctx_apply_calls (op : ctx_op V (Middleware V W) (Hook V W)) s :
  calls (final (ctx_apply op s)) = calls s.
Proof. by destruct (ctx_apply_frame op s). Qed.

Lemma ctx_apply_spares (op : ctx_op V (Middleware V W) (Hook V W)) s :
  spares_plugins op ->
  context (final (ctx_apply op s)) !! "plugins" = context s !! "plugins".
Proof.
  destruct op; simpl; try done; intros Hne;
    unfold bind, get_prop; simpl;
    try (match goal with |- context [read_prop s ?key] =>
           destruct (read_prop s key) as [[]|] end; simpl;
         by rewrite ?lookup_insert_ne);
    try (by rewrite ?lookup_insert_ne).
  - by apply assign_prop_others.
  - by rewrite lookup_delete_ne.
Qed.

(** *** The calls a run of user code adds to the record *)

Lemma exec_calls (P : list (call V W) -> Prop) :
  P [] ->
  (forall l1 l2, P l1 -> P l2 -> P (l1 ++ l2)) ->
  (forall p o, P [CallInstall p o]) ->
  forall b (p : prog V W b) (c : cont V W b),
    cont_calls P c ->
    forall s, exists l, calls (final (exec p c s)) = calls s ++ l /\ P l.
Proof.
  intros Hnil Happ Hinst b p.
  induction p as [b v|b e|d k IH|b m _ k IH|b nm h _ k IH|b nm v k IH
                 |b nm inst IHi options k IH|b op k IH|b f k IH|b k IH];
    intros c Hc s; simpl.
  - exists []. by rewrite app_nil_r.
  - exists []. by rewrite app_nil_r.
  - unfold bind. destruct (Hc d s) as (l1 & Hl1 & HP1).
    destruct (c d s) as [[r|e] s1]; simpl in *.
    + destruct (IH r c Hc s1) as (l2 & Hl2 & HP2).
      exists (l1 ++ l2). rewrite Hl2, Hl1, app_assoc. eauto.
    + eauto.
  - unfold bind. pose proof (useMiddleware_calls m s) as Hm.
    destruct (useMiddleware m s) as [[r|e] s1]; simpl in *.
    + destruct (IH c Hc s1) as (l & Hl & HP). exists l. by rewrite Hl, Hm.
    + exists []. by rewrite app_nil_r.
  - unfold bind. pose proof (hook_calls nm h s) as Hm.
    destruct (hook nm h s) as [[r|e] s1]; simpl in *.
    + destruct (IH c Hc s1) as (l & Hl & HP). exists l. by rewrite Hl, Hm.
    + exists []. by rewrite app_nil_r.
  - unfold bind. pose proof (extend_calls nm v s) as Hm.
    destruct (extend nm v s) as [[r|e] s1]; simpl in *.
    + destruct (IH c Hc s1) as (l & Hl & HP). exists l. by rewrite Hl, Hm.
    + exists []. by rewrite app_nil_r.
  - unfold bind at 1.
    assert (exists l, calls (final (use_with (fun body => exec body tt)
              {| name := nm; install := inst |} options s)) = calls s ++ l /\ P l)
      as (l1 & Hl1 & HP1).
    { unfold use_with, bind, get_prop; simpl.
      destruct (read_prop s "plugins") as [[reg| | | |]|];
        try (exists []; by rewrite app_nil_r).
      destruct (reg !! nm); simpl; [exists []; by rewrite app_nil_r|].
      match goal with |- context [exec (inst options) tt ?s0] =>
        destruct (IHi options tt I s0) as (l & Hl & HP);
        destruct (exec (inst options) tt s0) as [[r|e] s1] end;
        simpl in *; exists ([CallInstall {| name := nm; install := inst |} options] ++ l);
        rewrite Hl, app_assoc; eauto. }
    destruct (use_with _ _ _ s) as [[r|e] s1]; simpl in *.
    + destruct (IH c Hc s1) as (l2 & Hl2 & HP2).
      exists (l1 ++ l2). rewrite Hl2, Hl1, app_assoc. eauto.
    + eauto.
  - unfold bind. pose proof (ctx_apply_calls op s) as Hm.
    destruct (ctx_apply op s) as [[r|e] s1]; simpl in *.
    + destruct (IH c Hc s1) as (l & Hl & HP). exists l. by rewrite Hl, Hm.
    + exists []. by rewrite app_nil_r.
  - unfold bind. simpl. apply (IH c Hc (set_world (f (world s)) s)).
  - apply (IH (world s) c Hc).
Qed.

(** *** The calls a run of the middleware chain adds *)

Lemma mw_indices_app (l1 l2 : list (call V W)) :
  mw_indices (l1 ++ l2) = mw_indices l1 ++ mw_indices l2.
Proof. unfold mw_indices. apply omap_app. Qed.

Lemma steps_up_app a l1 k l2 :
  steps_up a l1 -> Forall (fun i => k <= i) (a :: l1) -> steps_up k l2 ->
  steps_up a (l1 ++ k :: l2).
Proof.
  revert a. induction l1 as [|j l1 IH]; intros a Hs Hall Hk; simpl in *.
  - split; [|done]. apply Forall_cons in Hall as [? _]. lia.
  - destruct Hs as [? Hs]. split; [done|].
    apply IH; [done| |done]. by apply Forall_cons in Hall as [_ ?].
Qed.

Lemma chain_from_app k l1 l2 :
  chain_from k l1 -> chain_from k l2 -> chain_from k (l1 ++ l2).
Proof.
  destruct l1 as [|j l1]; [done|]. destruct l2 as [|j2 l2].
  { by rewrite app_nil_r. }
  simpl. intros (-> & Hs1 & Ha1) (-> & Hs2 & Ha2). split; [done|]. split.
  - apply steps_up_app; [done| |done]. by apply Forall_cons.
  - apply Forall_app. split; [done|]. by apply Forall_cons.
Qed.

Lemma chain_calls_nil ms k : chain_calls ms k [].
Proof. split; [done|]. intros j m d Hin. by apply elem_of_nil in Hin. Qed.

Lemma chain_calls_app ms k l1 l2 :
  chain_calls ms k l1 -> chain_calls ms k l2 -> chain_calls ms k (l1 ++ l2).
Proof.
  intros [Hc1 Hs1] [Hc2 Hs2]. split.
  - rewrite mw_indices_app. by apply chain_from_app.
  - intros j m d [Hin|Hin]%elem_of_app; eauto.
Qed.

Lemma chain_calls_install ms k p o : chain_calls ms k [CallInstall p o].
Proof.
  split; [done|]. intros j m d Hin.
  apply list_elem_of_singleton in Hin. discriminate.
Qed.

Lemma dispatch_aux_calls ms left index data s :
  exists l, calls (final (dispatch_aux ms left index data s)) = calls s ++ l
            /\ chain_calls ms index l.
Proof.
  revert index data s.
  induction left as [|left IH]; intros index data s; simpl.
  - exists []. rewrite app_nil_r. split; [|apply chain_calls_nil].
    by destruct (ms !! index).
  - destruct (ms !! index) as [m|] eqn:Hm.
    2:{ exists []. rewrite app_nil_r. split; [done|apply chain_calls_nil]. }
    unfold bind at 1. simpl.
    destruct (exec_calls (chain_calls ms (index + 1))
                (chain_calls_nil ms _) (chain_calls_app ms _)
                (chain_calls_install ms _) true (m data)
                (fun nextData => dispatch_aux ms left (index + 1) nextData)
                (fun d s0 => IH (index + 1) d s0)
                (set_calls (calls s ++ [CallMiddleware index m data]) s))
      as (l & Hl & [Hchain Hsnap]).
    exists (CallMiddleware index m data :: l). split.
    { rewrite Hl. simpl. by rewrite <- app_assoc. }
    split.
    + simpl. split; [done|].
      destruct (mw_indices l) as [|j li]; [done|].
      destruct Hchain as (-> & Hs & Ha). split.
      * simpl. split; [lia|done].
      * apply Forall_cons. split; [lia|].
        eapply Forall_impl; [exact Ha|]. simpl. lia.
    + intros j m' d [Heq|Hin]%elem_of_cons; [|eauto].
      by injection Heq as -> -> ->.
Qed.

Lemma dispatch_calls ms index data s :
  exists l, calls (final (dispatch ms index data s)) = calls s ++ l
            /\ chain_calls ms index l.
Proof. apply dispatch_aux_calls. Qed.

Lemma applyMiddlewares_run ms x s :
  middlewares_of s = Some ms ->
  applyMiddlewares x s = dispatch ms 0 x s.
Proof.
  unfold middlewares_of, applyMiddlewares, bind, get_prop. simpl.
  destruct (context s !! "middlewares") as [f|] eqn:Hown; [|done].
  rewrite (read_prop_own s _ f Hown). destruct f; try done.
  by intros [= ->].
Qed.

(** *** Registering middlewares *)

Lemma useMiddleware_each_run ms0 ms s :
  middlewares_of s = Some ms0 ->
  exists s', useMiddleware_each ms s = (Ok system, s')
             /\ middlewares_of s' = Some (ms0 ++ ms).
Proof.
  revert ms0 s. induction ms as [|m ms IH]; intros ms0 s Hs; simpl.
  - exists s. by rewrite app_nil_r.
  - unfold bind. rewrite useMiddleware_run, Hs.
    destruct (IH (ms0 ++ [m])
                (set_context (<["middlewares" := FMiddlewares (ms0 ++ [m])]> (context s)) s))
      as (s' & Hrun & Hs').
    { unfold middlewares_of. simpl. by rewrite lookup_insert_eq. }
    exists s'. split; [done|]. by rewrite Hs', <- app_assoc.
Qed.

(** *** A chain of forwarding middlewares *)

Lemma forwards_Next : forwards (fun d : V => @Next V W d (fun r => Ret r)).
Proof.
  intros d s. exists s, (fun _ s2 => s2). intros next. simpl. unfold bind.
  by destruct (next d s) as [[r|e] s2].
Qed.

Lemma forwards_Effect (f g : W -> W) :
  forwards (fun d : V => Effect f (@Next V W d (fun r => Effect g (Ret r)))).
Proof.
  intros d s. exists (set_world (f (world s)) s),
    (fun _ s2 => set_world (g (world s2)) s2).
  intros next. simpl. unfold bind. simpl.
  by destruct (next d _) as [[r|e] s2].
Qed.

Lemma gives_back_exec r (p : prog V W true) :
  gives_back r p ->
  forall (c c' : V -> M V W V) s, exec p c s = (Ok r, final (exec p c' s)).
Proof.
  intros Hp. induction Hp as [|f k _ IH|k _ IH]; intros c c' s; simpl.
  - done.
  - unfold bind. simpl. apply IH.
  - apply IH.
Qed.

Lemma hands_on_forwards (m : Middleware V W) :
  (forall d, hands_on d (m d)) -> forwards m.
Proof.
  intros Hm d s. specialize (Hm d). revert s.
  induction Hm as [k Hk|f k _ IH|k _ IH]; intros s; simpl.
  - exists s, (fun r s2 => final (exec (k r) (fun x => ret x) s2)).
    intros next. unfold bind. destruct (next d s) as [[r|e] s2]; [|done].
    by apply gives_back_exec.
  - destruct (IH (set_world (f (world s)) s)) as (s1 & post & Hrun).
    exists s1, post. intros next. unfold bind. simpl. apply Hrun.
  - destruct (IH (world s) s) as (s1 & post & Hrun). by exists s1, post.
Qed.

Lemma dispatch_forwards ms :
  Forall forwards ms ->
  forall n index x s, length ms - index = n ->
    exists s', dispatch ms index x s = (Ok x, s').
Proof.
  intros Hall. induction n as [|n IH]; intros index x s Hn.
  - exists s. apply dispatch_beyond. lia.
  - rewrite dispatch_unfold.
    destruct (ms !! index) as [m|] eqn:Hm; [|by exists s].
    unfold bind at 1. simpl.
    pose proof (proj1 (Forall_lookup _ _) Hall index m Hm) as Hf.
    destruct (Hf x (set_calls (calls s ++ [CallMiddleware index m x]) s))
      as (s1 & post & Hrun).
    rewrite Hrun.
    destruct (IH (index + 1) x s1) as (s2 & ->); [lia|].
    by exists (post x s2).
Qed.

(** With no middleware registered the data comes back and nothing
    changes. *)
Lemma applyMiddlewares_empty (options : gmap string V) (w : W) (x : V) :
  applyMiddlewares x (createPluginSystem options w)
  = (Ok x, createPluginSystem options w).
Proof. reflexivity. Qed.

(** C1. If every registered middleware invokes its continuation with its
    input data unchanged and returns the continuation's result, then
    [applyMiddlewares(x)] returns [x]; so it does when no middleware is
    registered. The middlewares [ms] are registered by [useMiddleware]
    on a system that already holds the middlewares [ms0]. *)
Theorem applyMiddlewares_forwarding s ms0 ms (x : V) :
  middlewares_of s = Some ms0 ->
  Forall forwards (ms0 ++ ms) ->
  exists s', (let* _ := useMiddleware_each ms in applyMiddlewares x) s = (Ok x, s').
Proof.
  intros Hs Hall. unfold bind.
  destruct (useMiddleware_each_run ms0 ms s Hs) as (s1 & -> & Hs1).
  rewrite (applyMiddlewares_run _ _ _ Hs1).
  by apply (dispatch_forwards _ Hall (length (ms0 ++ ms) - 0)).
Qed.

(** *** A middleware that never calls its continuation *)

Lemma no_next_exec b (p : prog V W b) :
  no_next p -> forall (c c' : cont V W b) s, exec p c s = exec p c' s.
Proof.
  intros Hp. induction Hp; intros c c' s; simpl; unfold bind; try done;
    try (match goal with
         | |- context [match ?op s with _ => _ end] => destruct (op s) as [[]]
         end);
    simpl; eauto.
Qed.

Lemma no_next_ignores (m : Middleware V W) :
  (forall d, no_next (m d)) -> ignores_next m.
Proof. intros Hm d s next next'. by apply no_next_exec. Qed.

Lemma dispatch_stops ms i mi :
  ms !! i = Some mi -> ignores_next mi ->
  forall n index data s, index + n = i ->
    exists l, calls (final (dispatch ms index data s)) = calls s ++ l
              /\ Forall (fun j => j <= i) (mw_indices l).
Proof.
  intros Hi Hign. induction n as [|n IH]; intros index data s Hn.
  - assert (index = i) as -> by lia.
    rewrite dispatch_unfold, Hi. unfold bind at 1. simpl.
    rewrite (Hign data _ _ (fun d => ret d)).
    destruct (exec_calls (fun l => mw_indices l = [])) with
      (p := mi data) (c := (fun d : V => @ret V W V d))
      (s := set_calls (calls s ++ [CallMiddleware i mi data]) s)
      as (l & Hl & Hnone); try done.
    { intros l1 l2 H1 H2. by rewrite mw_indices_app, H1, H2. }
    { intros d s0. exists []. by rewrite app_nil_r. }
    exists (CallMiddleware i mi data :: l). split.
    + rewrite Hl. simpl. by rewrite <- app_assoc.
    + simpl. rewrite Hnone. by apply Forall_singleton.
  - rewrite dispatch_unfold.
    destruct (ms !! index) as [m|] eqn:Hm.
    2:{ exists []. by rewrite app_nil_r. }
    unfold bind at 1. simpl.
    destruct (exec_calls (fun l => Forall (fun j => j <= i) (mw_indices l))) with
      (p := m data) (c := (fun d : V => dispatch ms (index + 1) d))
      (s := set_calls (calls s ++ [CallMiddleware index m data]) s)
      as (l & Hl & Hle); try done.
    { intros l1 l2 H1 H2. rewrite mw_indices_app. by apply Forall_app. }
    { intros d s0. apply IH. lia. }
    exists (CallMiddleware index m data :: l). split.
    + rewrite Hl. simpl. by rewrite <- app_assoc.
    + simpl. apply Forall_cons. split; [lia|done].
Qed.

Lemma relays_calls (m : Middleware V W) d s d' s1 post :
  (forall next, exec (m d) next s =
     match next d' s1 with
     | (Ok r, s2) => (Ok r, post r s2)
     | (Err e, s2) => (Err e, s2)
     end) ->
  exists l, calls s1 = calls s ++ l /\ mw_indices l = [].
Proof.
  intros Hrun.
  destruct (exec_calls (fun l => mw_indices l = [])) with
    (p := m d) (c := (fun (_ : V) => @throw V W V TypeError)) (s := s)
    as (l & Hl & Hnone); try done.
  { intros l1 l2 H1 H2. by rewrite mw_indices_app, H1, H2. }
  { intros d0 s0. exists []. by rewrite app_nil_r. }
  rewrite Hrun in Hl. eauto.
Qed.

Lemma dispatch_relayed ms i mi :
  ms !! i = Some mi -> ignores_next mi ->
  (forall j m, j < i -> ms !! j = Some m -> relays m) ->
  forall n index data s, index + n = i ->
    exists d s0 l0,
      calls s0 = calls s ++ l0
      /\ mw_indices l0 = seq index n
      /\ forall next,
           outcome (dispatch ms index data s)
           = outcome (exec (mi d) next (final (log_call (CallMiddleware i mi d) s0))).
Proof.
  intros Hi Hign Hrel. induction n as [|n IH]; intros index data s Hn.
  - assert (index = i) as -> by lia.
    exists data, s, []. split; [by rewrite app_nil_r|]. split; [done|].
    intros next. rewrite dispatch_unfold, Hi. unfold bind at 1. simpl.
    by rewrite (Hign data _ _ next).
  - rewrite dispatch_unfold.
    destruct (ms !! index) as [m|] eqn:Hm.
    2:{ apply lookup_ge_None in Hm. apply lookup_lt_Some in Hi. lia. }
    unfold bind at 1. simpl.
    destruct (Hrel index m ltac:(lia) Hm data
                (set_calls (calls s ++ [CallMiddleware index m data]) s))
      as (d' & s1 & post & Hrun).
    destruct (relays_calls _ _ _ _ _ _ Hrun) as (l1 & Hl1 & Hnone).
    destruct (IH (index + 1) d' s1 ltac:(lia)) as (d & s0 & l0 & Hl0 & Hidx & Hout).
    exists d, s0, (CallMiddleware index m data :: l1 ++ l0). split.
    { rewrite Hl0, Hl1. simpl. by rewrite <- !app_assoc. }
    split.
    { simpl. rewrite mw_indices_app, Hnone, Hidx. simpl.
      by replace (index + 1) with (S index) by lia. }
    intros next. rewrite Hrun, <- Hout.
    by destruct (dispatch ms (index + 1) d' s1) as [[r|e] s2].
Qed.

(** C2, amended. If the middleware [mi] at index [i] never calls its
    continuation, no middleware of index greater than [i] is invoked,
    and the middlewares that are invoked are those of the snapshot,
    entered in registration order. If moreover every middleware before
    [mi] calls its continuation once and returns the continuation's
    result, then [mi] is called once the middlewares before it have been
    entered in order, and [applyMiddlewares] ends as that call of [mi]
    does: [mi]'s return value is the result of the pipeline. *)
Theorem applyMiddlewares_short_circuit s ms i (mi : Middleware V W) (x : V) :
  middlewares_of s = Some ms ->
  ms !! i = Some mi ->
  ignores_next mi ->
  (exists l, calls (final (applyMiddlewares x s)) = calls s ++ l
             /\ Forall (fun j => j <= i) (mw_indices l)
             /\ chain_calls ms 0 l)
  /\ ((forall j m, j < i -> ms !! j = Some m -> relays m) ->
      exists d s0 l0,
        calls s0 = calls s ++ l0
        /\ mw_indices l0 = seq 0 i
        /\ forall next,
             outcome (applyMiddlewares x s)
             = outcome (exec (mi d) next
                          (final (log_call (CallMiddleware i mi d) s0)))).
Proof.
  intros Hs Hi Hign. rewrite (applyMiddlewares_run _ _ _ Hs). split.
  - destruct (dispatch_stops ms i mi Hi Hign i 0 x s) as (l & Hl & Hle); [lia|].
    destruct (dispatch_calls ms 0 x s) as (l' & Hl' & Hchain).
    rewrite Hl in Hl'. apply app_inv_head in Hl' as ->. eauto.
  - intros Hrel. by apply (dispatch_relayed ms i mi Hi Hign Hrel i 0).
Qed.

(** *** The snapshot *)

Lemma exec_ext b (p : prog V W b) (c c' : cont V W b) :
  cont_eq c c' -> forall s, exec p c s = exec p c' s.
Proof.
  induction p as [b v|b e|d k IH|b m _ k IH|b nm h _ k IH|b nm v k IH
                 |b nm inst _ options k IH|b op k IH|b f k IH|b k IH];
    intros Hc s; simpl; try done.
  - unfold bind. rewrite (Hc d s).
    destruct (c' d s) as [[r|e] s1]; [by apply IH|done].
  - unfold bind. destruct (useMiddleware m s) as [[r|e] s1]; [by apply IH|done].
  - unfold bind. destruct (hook nm h s) as [[r|e] s1]; [by apply IH|done].
  - unfold bind. destruct (extend nm v s) as [[r|e] s1]; [by apply IH|done].
  - unfold bind at 1 2.
    destruct (use_with _ _ _ s) as [[r|e] s1]; [by apply IH|done].
  - unfold bind. destruct (ctx_apply op s) as [[r|e] s1]; [by apply IH|done].
  - unfold bind. simpl. by apply IH.
  - by apply IH.
Qed.

(** [dispatch] never looks at the context: from index [index] it is
    the run of what the snapshot holds from there on. *)
Lemma dispatch_chain ms :
  forall n index (data : V) s, length ms - index = n ->
    dispatch ms index data s = chain (drop index ms) index data s.
Proof.
  induction n as [|n IH]; intros index data s Hn.
  - rewrite dispatch_beyond by lia. by rewrite drop_ge by lia.
  - destruct (lookup_lt_is_Some_2 ms index) as [m Hm]; [lia|].
    rewrite dispatch_unfold, Hm, (drop_S _ _ _ Hm). simpl.
    unfold bind. simpl. apply exec_ext. intros d s0.
    replace (index + 1) with (S index) by lia. apply IH. lia.
Qed.

Lemma edit_then_run b (e : mw_edit) (k : prog V W b) (c : cont V W b) s live :
  middlewares_of s = Some live ->
  exec (edit_then e k) c s
  = exec k c (set_context
                (<["middlewares" := FMiddlewares (apply_edit e live)]> (context s)) s).
Proof.
  intros Hs.
  assert (read_prop s "middlewares" = Some (FMiddlewares live)) as Hr.
  { unfold middlewares_of in Hs.
    destruct (context s !! "middlewares") as [f|] eqn:Hown; [|done].
    rewrite (read_prop_own s _ f Hown). by destruct f; simplify_eq. }
  destruct e; simpl; unfold bind.
  - by rewrite useMiddleware_run, Hs.
  - unfold get_prop. by rewrite Hr.
  - unfold get_prop. by rewrite Hr.
  - done.
Qed.

Lemma editing_around_run (e : mw_edit) (f g : V -> V) d (next : V -> M V W V) s live :
  middlewares_of s = Some live ->
  exec (editing_around e f g d) next s
  = (let* r := next (f d) in ret (g r))
      (set_context (<["middlewares" := FMiddlewares (apply_edit e live)]> (context s)) s).
Proof.
  intros Hs. unfold editing_around. by rewrite (edit_then_run _ e _ _ _ live Hs).
Qed.

Lemma chain_editing (layers : list (mw_edit * (V -> V) * (V -> V))) :
  forall index (x : V) s live,
    middlewares_of s = Some live ->
    exists l s',
      chain (map (fun t => editing_around t.1.1 t.1.2 t.2) layers) index x s
      = (Ok (fold_right (fun g acc => g acc)
               (fold_left (fun acc f => f acc) (map (fun t => t.1.2) layers) x)
               (map (fun t => t.2) layers)), s')
      /\ calls s' = calls s ++ l
      /\ mw_indices l = seq index (length layers)
      /\ middlewares_of s' = Some (fold_left (fun l t => apply_edit t.1.1 l) layers live).
Proof.
  induction layers as [|[[e f] g] layers IH]; intros index x s live Hs.
  - exists [], s. simpl. by rewrite !app_nil_r.
  - simpl. unfold bind at 1. simpl.
    rewrite (editing_around_run e f g x _ _ live) by (by rewrite <- Hs).
    unfold bind at 1.
    match goal with |- context [chain _ (S index) (f x) ?s1] =>
      destruct (IH (S index) (f x) s1 (apply_edit e live))
        as (l & s' & -> & Hl & Hidx & Hlive)
    end.
    { unfold middlewares_of. simpl. by rewrite lookup_insert_eq. }
    exists (CallMiddleware index (editing_around e f g) x :: l), s'.
    split; [done|]. split; [rewrite Hl; simpl; by rewrite <- app_assoc|].
    split; [simpl; by rewrite Hidx|done].
Qed.

(** C3. [applyMiddlewares] takes the list of middlewares the context
    holds when it is called, and that list alone fixes which
    middlewares the call runs, in which order and how many: the call is
    the run of that list, in which the context plays no part. Whatever
    the middlewares do while the call runs, every middleware the call
    invokes is the one that list holds at the index it is invoked for,
    the indices lie within that list, and they are entered in its
    order. When every middleware of the list edits the list of the
    context before it calls its continuation (it registers a further
    middleware by [useMiddleware], or removes middlewares, or replaces
    the list), the call still runs the middlewares of the list it
    started with, each once and in order, and no other; the edits are
    in the context, made one after the other on the list the call
    started with, when the call has returned. *)
Theorem applyMiddlewares_snapshot s ms (x : V) :
  middlewares_of s = Some ms ->
  applyMiddlewares x s = chain ms 0 x s
  /\ (exists l, calls (final (applyMiddlewares x s)) = calls s ++ l
                /\ (forall j m d, CallMiddleware j m d ∈ l ->
                      j < length ms /\ ms !! j = Some m)
                /\ chain_from 0 (mw_indices l))
  /\ (forall layers : list (mw_edit * (V -> V) * (V -> V)),
        ms = map (fun t => editing_around t.1.1 t.1.2 t.2) layers ->
        exists l s',
          applyMiddlewares x s
          = (Ok (compose (map (fun t => t.2) layers)
                   (pipe (map (fun t => t.1.2) layers) x)), s')
          /\ calls s' = calls s ++ l
          /\ mw_indices l = seq 0 (length ms)
          /\ middlewares_of s'
             = Some (fold_left (fun l t => apply_edit t.1.1 l) layers ms)).
Proof.
  intros Hs. rewrite (applyMiddlewares_run _ _ _ Hs).
  split; [|split].
  - rewrite (dispatch_chain ms (length ms - 0) 0 x s eq_refl). by rewrite drop_0.
  - destruct (dispatch_calls ms 0 x s) as (l & Hl & Hchain & Hsnap).
    exists l. repeat split; [done| |by eapply Hsnap|done].
    eapply lookup_lt_Some, Hsnap. eassumption.
  - intros layers ->.
    rewrite (dispatch_chain _ _ 0 x s eq_refl), drop_0.
    destruct (chain_editing layers 0 x s _ Hs) as (l & s' & -> & Hl & Hidx & Hlive).
    exists l, s'. rewrite compose_as_fold, pipe_as_fold, length_map. done.
Qed.

(** *** Calling the continuation several times *)

Lemma exec_next_each (ds : list V) k (next : V -> M V W V) s :
  exec (next_each ds k) next s
  = (let* rs := run_each next ds in exec (k rs) next) s.
Proof.
  revert k s. induction ds as [|d ds IH]; intros k s; simpl.
  - done.
  - unfold bind. destruct (next d s) as [[r|e] s1]; [|done].
    rewrite IH. unfold bind.
    by destruct (run_each next ds s1) as [[rs|e] s2].
Qed.

(** C10. The continuation handed to the middleware at index [i] may be
    called any number of times: a middleware that calls it on each of
    the data [ds] runs the rest of the snapshot, from index [i + 1],
    once for each of them, in turn, and goes on with the results of
    those runs. *)
Theorem continuation_reruns_rest ms i (m : Middleware V W) (d : V) ds k s :
  ms !! i = Some m ->
  m d = next_each ds k ->
  dispatch ms i d s
  = (let* _ := log_call (CallMiddleware i m d) in
     let* rs := run_each (fun d' => dispatch ms (i + 1) d') ds in
     exec (k rs) (fun d' => dispatch ms (i + 1) d')) s.
Proof.
  intros Hi Hm. rewrite dispatch_unfold, Hi. unfold bind at 1 2. simpl.
  by rewrite Hm, exec_next_each.
Qed.

(** *** The hook registry *)

Lemma hooks_of_hook nm h s bucket :
  hooks_of s nm = Some bucket ->
  exists s', hook nm h s = (Ok system, s')
             /\ hooks_of s' nm = Some (bucket ++ [h])
             /\ (forall nm', nm' <> nm -> hooks_of s' nm' = hooks_of s nm').
Proof.
  intros Hb. rewrite hook_run, Hb. eexists. split; [done|].
  unfold hooks_of in *. simpl. rewrite lookup_insert_eq.
  destruct (context s !! "hooks") as [[| |hs| |]|]; try done.
  split.
  - by rewrite lookup_insert_eq.
  - intros nm' Hne. by rewrite lookup_insert_ne.
Qed.

Lemma array_map_fold {A B} (cb : A -> M V W B) (l : list A) (m : M V W (list B)) s :
  fold_left (fun acc x => let* out := acc in
                          let* y := cb x in
                          ret (out ++ [y])) l m s
  = (let* out := m in
     let* ys := (fix go l := match l with
                             | [] => ret []
                             | x :: l' => let* y := cb x in
                                          let* ys := go l' in
                                          ret (y :: ys)
                             end) l in
     ret (out ++ ys)) s.
Proof.
  revert m s. induction l as [|x l IH]; intros m s; simpl.
  - unfold bind, ret. destruct (m s) as [[out|e] s1]; [|done].
    by rewrite app_nil_r.
  - rewrite IH. unfold bind, ret.
    destruct (m s) as [[out|e] s1]; [|done].
    destruct (cb x s1) as [[y|e] s2]; [|done].
    match goal with |- context [?go l s2] => destruct (go l s2) as [[ys|e] s3] end;
      [|done].
    by rewrite <- app_assoc.
Qed.

Lemma array_map_fanout (hs : list (Hook V W)) args s :
  array_map (fun h => call_hook h args) hs s = fanout hs args s.
Proof.
  unfold array_map. rewrite array_map_fold.
  unfold bind at 1. simpl.
  replace ((fix go (l : list (Hook V W)) : M V W (list V) :=
              match l with
              | [] => ret []
              | x :: l' => let* y := call_hook x args in
                           let* ys := go l' in ret (y :: ys)
              end) hs) with (fanout hs args).
  - apply bind_ret_r.
  - induction hs as [|h hs IH]; simpl; [done|]. by rewrite IH.
Qed.

Lemma array_reduce_fold {A B} (cb : B -> A -> M V W B) (l : list A) (m : M V W B) s :
  fold_left (fun acc x => let* r := acc in cb r x) l m s
  = (let* r := m in
     (fix go l r := match l with
                    | [] => ret r
                    | x :: l' => let* r' := cb r x in go l' r'
                    end) l r) s.
Proof.
  revert m s. induction l as [|x l IH]; intros m s; simpl.
  - by rewrite bind_ret_r.
  - rewrite IH. by rewrite bind_assoc.
Qed.

Lemma array_reduce_serial (hs : list (Hook V W)) v s :
  array_reduce (fun result h => call_hook h [result]) hs v s = serial hs v s.
Proof.
  unfold array_reduce. rewrite array_reduce_fold.
  unfold bind at 1. simpl.
  revert v s. induction hs as [|h hs IH]; intros v s; simpl; [done|].
  unfold bind. destruct (call_hook h [v] s) as [[r|e] s1]; [|done].
  apply IH.
Qed.

Lemma callHook_run nm args s hs :
  hooks_of s nm = Some hs -> callHook nm args s = fanout hs args s.
Proof.
  unfold hooks_of, callHook, bind, get_prop. simpl.
  destruct (context s !! "hooks") as [f|] eqn:Hown; [|done].
  rewrite (read_prop_own s _ f Hown). destruct f as [| |hm| |]; try done.
  intros [= <-]. apply array_map_fanout.
Qed.

Lemma callHookSerial_run nm v s hs :
  hooks_of s nm = Some hs -> callHookSerial nm v s = serial hs v s.
Proof.
  unfold hooks_of, callHookSerial, bind, get_prop. simpl.
  destruct (context s !! "hooks") as [f|] eqn:Hown; [|done].
  rewrite (read_prop_own s _ f Hown). destruct f as [| |hm| |]; try done.
  intros [= <-]. apply array_reduce_serial.
Qed.







(** *** The plugin registry *)

Lemma getPlugin_registered s nm p :
  registered s nm p -> getPlugin nm s = (Ok (Some p), s).
Proof.
  intros (reg & Hreg & Hp). unfold getPlugin, bind, get_prop. simpl.
  by rewrite (read_prop_own s _ _ Hreg), <- Hp.
Qed.

(** C4. [use] of a plugin whose name is already registered changes
    nothing but the console: the context, with its registry, is as it
    was, [getPlugin] still answers the plugin registered first, no call
    into user code is made, one warning is written, and the system is
    returned. *)
Theorem use_duplicate s reg (p1 p2 : Plugin V W) (options : list V) :
  context s !! "plugins" = Some (FPlugins reg) ->
  reg !! name p2 = Some p1 ->
  let s' := final (use p2 options s) in
  outcome (use p2 options s) = Ok system
  /\ context s' = context s
  /\ calls s' = calls s
  /\ world s' = world s
  /\ console s' = console s ++ ["Plugin " +:+ dquote +:+ name p2 +:+ dquote
                                +:+ " is already registered."]
  /\ getPlugin (name p2) s' = (Ok (Some p1), s').
Proof.
  intros Hreg Hp. unfold use, use_with, bind, get_prop. simpl.
  rewrite (read_prop_own s _ _ Hreg), Hp. simpl. repeat split.
  apply getPlugin_registered. by exists reg.
Qed.

Lemma use_fresh_run s reg (p : Plugin V W) options :
  context s !! "plugins" = Some (FPlugins reg) ->
  reg !! name p = None ->
  use p options s =
    match exec (install p options) tt (install_start p options reg s) with
    | (Ok _, s2) => (Ok system, s2)
    | (Err e, s2) => (Err e, s2)
    end.
Proof.
  intros Hreg Hp. unfold use, use_with, bind, get_prop. simpl.
  rewrite (read_prop_own s _ _ Hreg), Hp. simpl.
  by destruct (exec _ _ _) as [[r|e] s2].
Qed.

Lemma registered_same_registry s s' nm pl :
  context s' !! "plugins" = context s !! "plugins" ->
  registered s nm pl -> registered s' nm pl.
Proof. intros Heq (reg & Hreg & Hp). exists reg. by rewrite Heq. Qed.

Lemma exec_keeps_plugins nm pl b (p : prog V W b) :
  keeps_plugins p ->
  forall c, cont_keeps nm pl c ->
    forall s, registered s nm pl -> registered (final (exec p c s)) nm pl.
Proof.
  intros Hp.
  induction Hp as [b v|b e|d k _ IH|b m k _ IH|b nm' h k _ IH|b nm' v k Hne _ IH
                  |b nm' inst options k _ IHi _ IH|b op k Hop _ IH
                  |b f k _ IH|b k _ IH];
    intros c Hc s Hs; simpl; try done.
  - unfold bind. pose proof (Hc d s Hs) as Hn.
    destruct (c d s) as [[r|e] s1]; simpl in *; [by apply IH|done].
  - unfold bind. rewrite useMiddleware_run.
    destruct (middlewares_of s); simpl; [|done].
    apply IH; [done|]. eapply registered_same_registry; [|exact Hs];
      simpl; by rewrite ?lookup_insert_ne.
  - unfold bind. rewrite hook_run.
    destruct (hooks_of s nm'); simpl; [|done].
    apply IH; [done|]. eapply registered_same_registry; [|exact Hs];
      simpl; by rewrite ?lookup_insert_ne.
  - unfold bind.
    assert (registered (final (extend nm' v s)) nm pl) as Hu.
    { eapply registered_same_registry; [|exact Hs].
      destruct (extend_frame nm' v s) as (_ & _ & Hctx). apply Hctx. congruence. }
    destruct (extend nm' v s) as [[r|e] s1]; simpl in *; [by apply IH|done].
  - unfold bind at 1.
    assert (registered (final (use_with (fun body => exec body tt)
              {| name := nm'; install := inst |} options s)) nm pl) as Hu.
    { destruct Hs as (reg & Hreg & Hpl).
      unfold use_with, bind, get_prop; simpl. rewrite (read_prop_own s _ _ Hreg).
      destruct (reg !! nm') as [q|] eqn:Hq; simpl.
      { by exists reg. }
      match goal with |- context [exec (inst options) tt ?s0] =>
        pose proof (IHi tt I s0) as Hi;
        destruct (exec (inst options) tt s0) as [[r|e] s1] end;
        simpl in *; apply Hi;
        (exists (<[nm' := {| name := nm'; install := inst |}]> reg));
        (split; [apply lookup_insert_eq|]);
        rewrite lookup_insert_ne; congruence. }
    destruct (use_with _ _ _ s) as [[r|e] s1]; simpl in *; [by apply IH|done].
  - unfold bind.
    assert (registered (final (ctx_apply op s)) nm pl) as Hu.
    { eapply registered_same_registry; [|exact Hs]. by apply ctx_apply_spares. }
    destruct (ctx_apply op s) as [[r|e] s1]; simpl in *; [by apply IH|done].
  - unfold bind. simpl. apply IH; [done|].
    eapply registered_same_registry; [|exact Hs];
      simpl; by rewrite ?lookup_insert_ne.
  - by apply IH.
Qed.

(** C5, amended. When [install] of a plugin with a fresh name throws,
    [use] throws the same exception and ends in the state [install]
    ended in; the plugin was recorded in the registry before [install]
    started, and it is still recorded after the throw provided [install]
    left the registry to [use]: it did not itself store a value under
    the context key "plugins" or delete that property, nor set, delete
    or clear entries of the [Map] it holds. *)
Theorem use_install_throws s reg (p : Plugin V W) (options : list V) e s2 :
  context s !! "plugins" = Some (FPlugins reg) ->
  reg !! name p = None ->
  exec (install p options) tt (install_start p options reg s) = (Err e, s2) ->
  use p options s = (Err e, s2)
  /\ getPlugin (name p) (install_start p options reg s)
     = (Ok (Some p), install_start p options reg s)
  /\ (keeps_plugins (install p options) ->
      getPlugin (name p) s2 = (Ok (Some p), s2)).
Proof.
  intros Hreg Hp Hthrow.
  assert (registered (install_start p options reg s) (name p) p) as Hstart.
  { eexists. split; [apply lookup_insert_eq|apply lookup_insert_eq]. }
  repeat split.
  - by rewrite (use_fresh_run _ _ _ _ Hreg Hp), Hthrow.
  - by apply getPlugin_registered.
  - intros Hkeeps. apply getPlugin_registered.
    pose proof (exec_keeps_plugins (name p) p false _ Hkeeps tt I _ Hstart) as Hk.
    by rewrite Hthrow in Hk.
Qed.

(** *** Extending the context *)


End Properties.

(** * The theorems at concrete systems *)

Lemma applyMiddlewares_forwarding_witness :
  middlewares_of fresh = Some []
  /\ Forall forwards ([] ++ [forward; count_calls])
  /\ exists s', (let* _ := useMiddleware_each [forward; count_calls] in
                 applyMiddlewares 7%Z) fresh = (Ok 7%Z, s').
Proof.
  assert (Forall forwards ([] ++ [forward; count_calls])) as Hall.
  { repeat constructor; [apply forwards_Next|apply forwards_Effect]. }
  split; [reflexivity|]. split; [exact Hall|].
  apply (applyMiddlewares_forwarding fresh [] [forward; count_calls] 7%Z);
    [reflexivity|exact Hall].
Defined.

(** [answer_zero] never calls its continuation. *)
Lemma answer_zero_ignores_next : ignores_next answer_zero.
Proof. intros d s next next'. reflexivity. Qed.

Lemma double_before_relays : relays double_before.
Proof.
  intros d s. exists (2 * d)%Z, s, (fun _ s2 => s2). intros next.
  simpl. unfold bind. by destruct (next (2 * d)%Z s) as [[r|e] s2].
Qed.

(** C2 as stated fails: [add_one_after] is registered before
    [answer_zero], which never calls its continuation and returns 0, yet
    the pipeline returns 1, the value [add_one_after] makes of 0. *)
Lemma short_circuit_counterexample :
  let ms := [add_one_after; answer_zero] in
  middlewares_of (with_middlewares ms) = Some ms
  /\ ms !! 1 = Some answer_zero
  /\ ignores_next answer_zero
  /\ (forall d next s0, outcome (exec (answer_zero d) next s0) = Ok 0%Z)
  /\ outcome (applyMiddlewares 5%Z (with_middlewares ms)) = Ok 1%Z
  /\ ~ (exists d next s0,
          outcome (applyMiddlewares 5%Z (with_middlewares ms))
          = outcome (exec (answer_zero d) next s0)).
Proof.
  simpl. split; [reflexivity|]. split; [reflexivity|].
  split; [exact answer_zero_ignores_next|]. split; [reflexivity|].
  split; [reflexivity|].
  intros (d & next & s0 & Heq). vm_compute in Heq. discriminate.
Qed.

Lemma applyMiddlewares_short_circuit_witness :
  let ms := [double_before; answer_zero; forward] in
  let s := with_middlewares ms in
  middlewares_of s = Some ms
  /\ ms !! 1 = Some answer_zero
  /\ ignores_next answer_zero
  /\ (forall j m, j < 1 -> ms !! j = Some m -> relays m)
  /\ (exists l, calls (final (applyMiddlewares 5%Z s)) = calls s ++ l
                /\ Forall (fun j => j <= 1) (mw_indices l)
                /\ chain_calls ms 0 l)
  /\ (exists d s0 l0,
        calls s0 = calls s ++ l0
        /\ mw_indices l0 = seq 0 1
        /\ forall next,
             outcome (applyMiddlewares 5%Z s)
             = outcome (exec (answer_zero d) next
                          (final (log_call (CallMiddleware 1 answer_zero d) s0)))).
Proof.
  intros ms s.
  assert (forall j m, j < 1 -> ms !! j = Some m -> relays m) as Hrel.
  { intros [|j] m Hj Hm; [|lia]. injection Hm as <-. exact double_before_relays. }
  split; [reflexivity|]. split; [reflexivity|].
  split; [exact answer_zero_ignores_next|]. split; [exact Hrel|].
  destruct (applyMiddlewares_short_circuit s ms 1 answer_zero 5%Z) as [Hcalls Hout];
    [reflexivity|reflexivity|exact answer_zero_ignores_next|].
  split; [exact Hcalls|exact (Hout Hrel)].
Defined.

(** The chain stops at [answer_zero]: indices 0 and 1 are entered, 2 is
    not, and the result is the 0 that [answer_zero] returns. *)
Example short_circuit_run :
  let s := with_middlewares [double_before; answer_zero; forward] in
  outcome (applyMiddlewares 5%Z s) = Ok 0%Z
  /\ mw_indices (calls (final (applyMiddlewares 5%Z s))) = [0; 1].
Proof. split; reflexivity. Qed.

Lemma applyMiddlewares_snapshot_witness :
  let ms := map (fun t => editing_around t.1.1 t.1.2 t.2) editing_layers in
  let s := with_middlewares ms in
  middlewares_of s = Some ms
  /\ applyMiddlewares 5%Z s = chain ms 0 5%Z s
  /\ (exists l, calls (final (applyMiddlewares 5%Z s)) = calls s ++ l
                /\ (forall j m d, CallMiddleware j m d ∈ l ->
                      j < length ms /\ ms !! j = Some m)
                /\ chain_from 0 (mw_indices l))
  /\ (exists l s',
        applyMiddlewares 5%Z s = (Ok 28%Z, s')
        /\ calls s' = calls s ++ l
        /\ mw_indices l = [0; 1; 2]
        /\ middlewares_of s' = Some [forward]).
Proof.
  intros ms s. split; [reflexivity|].
  destruct (applyMiddlewares_snapshot s ms 5%Z) as (Hrun & Hcalls & Hedit);
    [reflexivity|].
  split; [exact Hrun|]. split; [exact Hcalls|].
  exact (Hedit editing_layers eq_refl).
Defined.

(** A middleware registered while a call runs is not part of that call;
    it is in the context afterwards and part of the next call. *)
Example registration_in_flight :
  let s := with_middlewares [register_then_forward] in
  let s1 := final (applyMiddlewares 5%Z s) in
  outcome (applyMiddlewares 5%Z s) = Ok 5%Z
  /\ mw_indices (calls s1) = [0]
  /\ middlewares_of s1 = Some [register_then_forward; answer_zero]
  /\ outcome (applyMiddlewares 5%Z s1) = Ok 0%Z
  /\ mw_indices (calls (final (applyMiddlewares 5%Z s1))) = [0; 0; 1].
Proof. repeat split. Qed.

Lemma continuation_reruns_rest_witness :
  let ms := [ask_twice; add_one_after; forward] in
  let k := fun rs : list Z => @Ret Z nat true (foldr Z.add 0%Z rs) in
  ms !! 0 = Some ask_twice
  /\ ask_twice 5%Z = next_each [5; 15]%Z k
  /\ dispatch ms 0 5%Z fresh
     = (let* _ := log_call (CallMiddleware 0 ask_twice 5%Z) in
        let* rs := run_each (fun d' => dispatch ms (0 + 1) d') [5; 15]%Z in
        exec (k rs) (fun d' => dispatch ms (0 + 1) d')) fresh.
Proof.
  intros ms k. split; [reflexivity|]. split; [reflexivity|].
  apply (continuation_reruns_rest ms 0 ask_twice 5%Z [5; 15]%Z k fresh);
    reflexivity.
Defined.

(** The rest of the chain runs once for each call of the continuation,
    and the middleware sees both results: (5 + 1) + (15 + 1). *)
Example ask_twice_runs_rest_twice :
  let s := with_middlewares [ask_twice; add_one_after; forward] in
  outcome (applyMiddlewares 5%Z s) = Ok 22%Z
  /\ mw_indices (calls (final (applyMiddlewares 5%Z s))) = [0; 1; 2; 1; 2].
Proof. repeat split. Qed.



Lemma use_duplicate_witness :
  let s := final (use counting_plugin [] fresh) in
  let s' := final (use second_plugin [7%Z] s) in
  context s !! "plugins" = Some (FPlugins (<["p" := counting_plugin]> ∅))
  /\ (<["p" := counting_plugin]> ∅ : gmap string (Plugin Z nat)) !! name second_plugin
     = Some counting_plugin
  /\ outcome (use second_plugin [7%Z] s) = Ok system
  /\ context s' = context s
  /\ calls s' = calls s
  /\ world s' = world s
  /\ console s' = console s ++ ["Plugin " +:+ dquote +:+ name second_plugin +:+ dquote
                                +:+ " is already registered."]
  /\ getPlugin (name second_plugin) s' = (Ok (Some counting_plugin), s').
Proof.
  intros s s'. split; [reflexivity|]. split; [reflexivity|].
  apply (use_duplicate s (<["p" := counting_plugin]> ∅)
           counting_plugin second_plugin [7%Z]); reflexivity.
Defined.

Lemma use_install_throws_witness :
  let s2 := final (exec (install failing_plugin []) tt
                     (install_start failing_plugin [] ∅ fresh)) in
  context fresh !! "plugins" = Some (FPlugins ∅)
  /\ (∅ : gmap string (Plugin Z nat)) !! name failing_plugin = None
  /\ exec (install failing_plugin []) tt (install_start failing_plugin [] ∅ fresh)
     = (Err (Thrown 13%Z), s2)
  /\ keeps_plugins (install failing_plugin [])
  /\ use failing_plugin [] fresh = (Err (Thrown 13%Z), s2)
  /\ getPlugin (name failing_plugin) (install_start failing_plugin [] ∅ fresh)
     = (Ok (Some failing_plugin), install_start failing_plugin [] ∅ fresh)
  /\ getPlugin (name failing_plugin) s2 = (Ok (Some failing_plugin), s2).
Proof.
  intros s2.
  assert (keeps_plugins (install failing_plugin [])) as Hkeeps.
  { simpl. repeat constructor. }
  split; [reflexivity|]. split; [reflexivity|]. split; [reflexivity|].
  split; [exact Hkeeps|].
  destruct (use_install_throws fresh ∅ failing_plugin [] (Thrown 13%Z) s2)
    as (Huse & Hstart & Hafter); [reflexivity..|].
  split; [exact Huse|]. split; [exact Hstart|exact (Hafter Hkeeps)].
Defined.

(** C5 as stated fails: the name "q" is fresh and [install] throws 13,
    which [use] passes on; but [install] has stored 0 under the context
    key "plugins", and [getPlugin] no longer finds the plugin. *)
Lemma use_install_throws_counterexample :
  let s2 := final (use clobbering_plugin [] fresh) in
  getPlugin "q" fresh = (Ok None, fresh)
  /\ outcome (use clobbering_plugin [] fresh) = Err (Thrown 13%Z)
  /\ context s2 !! "plugins" = Some (FAny 0%Z)
  /\ getPlugin "q" s2 = (Err TypeError, s2)
  /\ getPlugin "q" s2 <> (Ok (Some clobbering_plugin), s2).
Proof.
  simpl. split; [reflexivity|]. split; [reflexivity|]. split; [reflexivity|].
  split; [reflexivity|]. discriminate.
Qed.

(** The examples of the documentation of [pipe] and [compose]:
    ((5 + 10) * 2) - 5 = 25. *)
Example pipe_compose_calculate :
  pipe [Z.add 10; Z.mul 2; fun x => x - 5]%Z 5%Z = 25%Z
  /\ compose [fun x => x - 5; Z.mul 2; Z.add 10]%Z 5%Z = 25%Z.
Proof. split; reflexivity. Qed.

(** An [install] that deletes its own entry from the registry and then
    throws: the plugin is not recorded after the throw, and a second
    [use] runs [install] again. *)
Example install_deletes_itself :
  let s2 := final (use self_deleting_plugin [] fresh) in
  outcome (use self_deleting_plugin [] fresh) = Err (Thrown 13%Z)
  /\ getPlugin "q" s2 = (Ok None, s2)
  /\ ~ keeps_plugins (install self_deleting_plugin [])
  /\ length (calls (final (use self_deleting_plugin [] s2))) = 2.
Proof.
  simpl. split; [reflexivity|]. split; [reflexivity|]. split; [|reflexivity].
  intros H. inversion H.
  match goal with Hop : spares_plugins _ |- _ => exact Hop end.
Qed.

(** A [Map] that user code stores as [context.plugins] is the registry
    from then on: the plugins recorded before are gone. *)
Example stored_map_is_registry :
  let s1 := final (use counting_plugin [] fresh) in
  let s2 := final (use registry_replacing_plugin [] s1) in
  getPlugin "p" s1 = (Ok (Some counting_plugin), s1)
  /\ getPlugin "p" s2 = (Ok None, s2)
  /\ getPlugin "r" s2 = (Ok None, s2)
  /\ outcome (use counting_plugin [] s2) = Ok system
  /\ world (final (use counting_plugin [] s2)) = 2.
Proof. repeat split. Qed.

(** [extend('x', 1)] then [extend('x', 2)] on a new system: [context.x]
    is 2 and the second call has written the one warning. *)
Example extend_twice :
  let s2 := final (extend "x" 2%Z (final (extend "x" 1%Z fresh))) in
  context s2 !! "x" = Some (FAny 2%Z)
  /\ length (console s2) = 1.
Proof. split; reflexivity. Qed.



(** The setter of [__proto__] takes [null] and objects: after
    [extend('__proto__', null)] the context inherits nothing, and the
    first [extend('toString', 1)] writes no warning; after
    [extend('__proto__', {log: 7})] the property [log] is in the
    context, and the first [extend('log', 1)] writes a warning. *)
Example extend_prototype :
  let s0 := final (extend "__proto__" JNull fresh_js) in
  let s1 := final (extend "__proto__" (JRecord (<["log" := 7%Z]> ∅)) fresh_js) in
  proto s0 = NullPrototype
  /\ has_property s0 "toString" = false
  /\ length (console (final (extend "toString" (JNum 1) s0))) = 1
  /\ has_property s1 "log" = true
  /\ context s1 !! "log" = None
  /\ length (console (final (extend "log" (JNum 1) s1))) = 2
  /\ context (final (extend "log" (JNum 1) s1)) !! "log" = Some (FAny (JNum 1)).
Proof. repeat split. Qed.

(** [extend('middlewares', '')] replaces the array of middlewares by
    the empty string, which spreads to no middleware:
    [applyMiddlewares('x')] returns ['x'], while [useMiddleware] throws
    a [TypeError]. A number in its place does not spread. *)
Example empty_string_middlewares :
  let s1 := final (extend "middlewares" (JStr "") fresh_js) in
  let s2 := final (extend "middlewares" (JNum 0) fresh_js) in
  applyMiddlewares (JStr "x") s1 = (Ok (JStr "x"), s1)
  /\ outcome (useMiddleware (fun d => Ret d) s1) = Err TypeError
  /\ applyMiddlewares (JStr "x") s2 = (Err TypeError, s2).
Proof. repeat split. Qed.

(** * Further properties of the runtime *)

Section CompositionAlgebra.
Context {T : Type}.

(** X1. [pipe] and [compose] turn concatenation of function lists into
    composition, [pipe] is [compose] of the reversed list, and the
    [compose] method of the system is the exported [compose]. *)
Theorem pipe_compose_algebra (fs gs : list (T -> T)) (x : T) :
  pipe (fs ++ gs) x = pipe gs (pipe fs x)
  /\ compose (fs ++ gs) x = compose fs (compose gs x)
  /\ pipe fs x = compose (rev fs) x
  /\ system_compose fs = compose fs.
Proof.
  repeat split.
  - rewrite !pipe_as_fold. apply fold_left_app.
  - rewrite !compose_as_fold. apply fold_right_app.
  - rewrite pipe_as_fold, compose_as_fold.
    by rewrite (fold_left_rev_right (fun (h : T -> T) acc => h acc)).
Qed.
End CompositionAlgebra.

Section MoreProperties.
Context {V W : Type} {JS : JsValue V}.
Implicit Types (s : State V W) (ms : list (Middleware V W)).

(** *** Registration *)

(** X2. [useMiddleware] calls append to the middleware list in the order
    they are made, never throw while the context holds the list, and
    change nothing else. *)
Theorem useMiddleware_each_appends s ms0 ms :
  middlewares_of s = Some ms0 ->
  outcome (useMiddleware_each ms s) = Ok system
  /\ middlewares_of (final (useMiddleware_each ms s)) = Some (ms0 ++ ms)
  /\ (forall key, key <> "middlewares" ->
        context (final (useMiddleware_each ms s)) !! key = context s !! key)
  /\ console (final (useMiddleware_each ms s)) = console s
  /\ world (final (useMiddleware_each ms s)) = world s
  /\ calls (final (useMiddleware_each ms s)) = calls s.
Proof.
  revert ms0 s. induction ms as [|m ms IH]; intros ms0 s Hs; simpl.
  - rewrite app_nil_r. repeat split; done.
  - unfold bind. rewrite useMiddleware_run, Hs.
    destruct (IH (ms0 ++ [m])
                (set_context (<["middlewares" := FMiddlewares (ms0 ++ [m])]> (context s)) s))
      as (Hout & Hms & Hctx & Hcon & Hw & Hc).
    { unfold middlewares_of. simpl. by rewrite lookup_insert_eq. }
    repeat split; try done.
    + by rewrite Hms, <- app_assoc.
    + intros key Hkey. rewrite (Hctx key Hkey). simpl. by rewrite lookup_insert_ne.
Qed.

Lemma hooks_of_any s nm nm' hs :
  hooks_of s nm = Some hs -> exists hs', hooks_of s nm' = Some hs'.
Proof.
  unfold hooks_of. destruct (context s !! "hooks") as [[| |hm| |]|]; try done.
  eauto.
Qed.

Lemma hooks_for_cons nm nm' (h : Hook V W) regs :
  hooks_for nm ((nm', h) :: regs)
  = (if decide (nm' = nm) then [h] else []) ++ hooks_for nm regs.
Proof. unfold hooks_for. simpl. by destruct (decide (nm' = nm)). Qed.

(** X3. [hook] calls, made in any interleaving of names, put under each
    name the hooks registered for it, in the order of registration,
    after those already there; they never throw while the context holds
    the hook registry. *)
Theorem hook_each_buckets s (regs : list (string * Hook V W)) nm hs :
  hooks_of s nm = Some hs ->
  outcome (hook_each regs s) = Ok system
  /\ hooks_of (final (hook_each regs s)) nm = Some (hs ++ hooks_for nm regs).
Proof.
  revert s hs. induction regs as [|[nm' h] regs IH]; intros s hs Hs.
  - simpl. by rewrite app_nil_r.
  - destruct (hooks_of_any s nm nm' hs Hs) as (hs' & Hs').
    destruct (hooks_of_hook nm' h s hs' Hs') as (s1 & Hrun & Hsame & Hother).
    rewrite hooks_for_cons. simpl. unfold bind. rewrite Hrun.
    destruct (decide (nm' = nm)) as [->|Hne].
    + rewrite Hs in Hs'. injection Hs' as <-.
      destruct (IH s1 (hs ++ [h]) Hsame) as [Hout Hh].
      split; [done|]. by rewrite Hh, <- app_assoc.
    + destruct (IH s1 hs) as [Hout Hh]; [|done].
      rewrite Hother; [done|]. congruence.
Qed.
(** *** The plugin registry *)

Lemma use_registered_run s (p1 p2 : Plugin V W) options :
  registered s (name p2) p1 ->
  use p2 options s
  = (Ok system,
     set_console (console s ++ ["Plugin " +:+ dquote +:+ name p2 +:+ dquote
                                +:+ " is already registered."]) s).
Proof.
  intros (reg & Hreg & Hp). unfold use, use_with, bind, get_prop. simpl.
  by rewrite (read_prop_own s _ _ Hreg), Hp.
Qed.

Lemma getPlugin_found s nm (pl : Plugin V W) s' :
  getPlugin nm s = (Ok (Some pl), s') -> registered s nm pl.
Proof.
  unfold getPlugin, bind, get_prop. simpl.
  destruct (read_prop s "plugins") as [[reg| | | |]|] eqn:Hreg; try done.
  intros [= Hp _]. exists reg. split; [by apply read_prop_plugins|done].
Qed.

Lemma use_fresh_final s reg (p : Plugin V W) options :
  context s !! "plugins" = Some (FPlugins reg) ->
  reg !! name p = None ->
  final (use p options s)
  = final (exec (install p options) tt (install_start p options reg s)).
Proof.
  intros Hreg Hp. rewrite (use_fresh_run _ _ _ _ Hreg Hp).
  by destruct (exec _ _ _) as [[r|e] s2].
Qed.

(** X4. [use] of a plugin with a fresh name records it: whether
    [install] returns or throws, as long as it leaves the registry to
    [use] (it does not itself store a value under the context key
    "plugins" or delete that property, nor set, delete or clear entries
    of the [Map]), [getPlugin] finds the plugin afterwards (it found
    nothing before), and a later [use] under the same name is turned
    down with a warning and changes nothing else, so a failed [install]
    is not run again. *)
Theorem use_then_getPlugin s reg (p p' : Plugin V W) (options options' : list V) :
  context s !! "plugins" = Some (FPlugins reg) ->
  reg !! name p = None ->
  keeps_plugins (install p options) ->
  name p' = name p ->
  let s2 := final (use p options s) in
  getPlugin (name p) s = (Ok None, s)
  /\ getPlugin (name p) s2 = (Ok (Some p), s2)
  /\ use p' options' s2
     = (Ok system,
        set_console (console s2 ++ ["Plugin " +:+ dquote +:+ name p +:+ dquote
                                    +:+ " is already registered."]) s2).
Proof.
  intros Hreg Hp Hkeeps Hname s2.
  assert (registered s2 (name p) p) as Hs2.
  { unfold s2. rewrite (use_fresh_final _ _ _ _ Hreg Hp).
    apply (exec_keeps_plugins (name p) p false _ Hkeeps tt I).
    eexists. split; [apply lookup_insert_eq|apply lookup_insert_eq]. }
  repeat split.
  - unfold getPlugin, bind, get_prop. simpl.
    by rewrite (read_prop_own s _ _ Hreg), Hp.
  - by apply getPlugin_registered.
  - rewrite <- Hname. apply (use_registered_run s2 p p'). by rewrite Hname.
Qed.

(** X5. [use] never removes or replaces a registered plugin: what
    [getPlugin] answers for a name stays its answer after any [use],
    of that name or another, whose [install] leaves the registry to
    [use]: it does not itself store a value under the context key
    "plugins" or delete that property, nor set, delete or clear entries
    of the [Map]. *)
Theorem use_keeps_registered s nm (pl p : Plugin V W) (options : list V) :
  getPlugin nm s = (Ok (Some pl), s) ->
  keeps_plugins (install p options) ->
  getPlugin nm (final (use p options s))
  = (Ok (Some pl), final (use p options s)).
Proof.
  intros Hget Hkeeps. apply getPlugin_registered.
  apply getPlugin_found in Hget. destruct Hget as (reg & Hreg & Hpl).
  destruct (reg !! name p) as [q|] eqn:Hq.
  - rewrite (use_registered_run s q p); [|by exists reg]. by exists reg.
  - rewrite (use_fresh_final _ _ _ _ Hreg Hq).
    apply (exec_keeps_plugins nm pl false _ Hkeeps tt I).
    exists (<[name p := p]> reg). split; [apply lookup_insert_eq|].
    rewrite lookup_insert_ne; congruence.
Qed.

(** *** [install] runs at most once for a name *)

Lemma install_names_app (l1 l2 : list (call V W)) :
  install_names (l1 ++ l2) = install_names l1 ++ install_names l2.
Proof. unfold install_names. apply omap_app. Qed.

Lemma installs_once_frame s s' :
  install_names (calls s') = install_names (calls s) ->
  context s' !! "plugins" = context s !! "plugins" ->
  installs_once s -> installs_once s'.
Proof.
  intros Hc Hctx [Hnd Hin]. unfold installs_once. rewrite Hc, Hctx. by split.
Qed.

Lemma installs_once_start s reg (p : Plugin V W) options :
  context s !! "plugins" = Some (FPlugins reg) ->
  reg !! name p = None ->
  installs_once s -> installs_once (install_start p options reg s).
Proof.
  intros Hreg Hp [Hnd Hin]. unfold installs_once, install_start. simpl.
  rewrite install_names_app. simpl. split.
  - apply NoDup_app. split; [done|]. split; [|apply NoDup_singleton].
    intros n Hn ->%list_elem_of_singleton.
    destruct (Hin reg Hreg _ Hn) as [q Hq]. congruence.
  - intros reg'. rewrite lookup_insert_eq. intros [= <-] n Hn.
    apply elem_of_app in Hn as [Hn| ->%list_elem_of_singleton].
    + destruct (decide (name p = n)) as [->|Hne].
      * rewrite lookup_insert_eq. eauto.
      * rewrite lookup_insert_ne by done. eauto.
    + rewrite lookup_insert_eq. eauto.
Qed.

Lemma use_with_installs_once (run : prog V W false -> M V W V) (p : Plugin V W) options s :
  (forall s0, installs_once s0 -> installs_once (final (run (install p options) s0))) ->
  installs_once s -> installs_once (final (use_with run p options s)).
Proof.
  intros Hrun Hs. unfold use_with, bind, get_prop. simpl.
  destruct (read_prop s "plugins") as [[reg| | | |]|] eqn:Hreg; try done.
  apply read_prop_plugins in Hreg.
  destruct (reg !! name p) as [q|] eqn:Hq; simpl.
  - by apply (installs_once_frame s).
  - pose proof (Hrun _ (installs_once_start s reg p options Hreg Hq Hs)) as Hi.
    unfold install_start in Hi.
    by destruct (run (install p options) _) as [[r|e] s1].
Qed.

Lemma exec_installs_once b (p : prog V W b) :
  keeps_plugins p ->
  forall c, cont_installs_once c ->
    forall s, installs_once s -> installs_once (final (exec p c s)).
Proof.
  intros Hp.
  induction Hp as [b v|b e|d k _ IH|b m k _ IH|b nm h k _ IH|b nm v k Hne _ IH
                  |b nm inst options k _ IHi _ IH|b op k Hop _ IH
                  |b f k _ IH|b k _ IH];
    intros c Hc s Hs; simpl; try done.
  - unfold bind. pose proof (Hc d s Hs) as Hn.
    destruct (c d s) as [[r|e] s1]; simpl in *; [by apply IH|done].
  - unfold bind. rewrite useMiddleware_run.
    destruct (middlewares_of s); simpl; [|done].
    apply IH; [done|]. apply (installs_once_frame s); [done| |done].
    simpl. by rewrite lookup_insert_ne.
  - unfold bind. rewrite hook_run.
    destruct (hooks_of s nm); simpl; [|done].
    apply IH; [done|]. apply (installs_once_frame s); [done| |done].
    simpl. by rewrite lookup_insert_ne.
  - unfold bind.
    assert (installs_once (final (extend nm v s))) as Hu.
    { destruct (extend_frame nm v s) as (_ & Hcalls & Hctx).
      apply (installs_once_frame s); [by rewrite Hcalls| |done].
      apply Hctx. congruence. }
    destruct (extend nm v s) as [[r|e] s1]; simpl in *; [by apply IH|done].
  - unfold bind at 1.
    pose proof (use_with_installs_once (fun body => exec body tt)
                  {| name := nm; install := inst |} options s
                  (fun s0 Hs0 => IHi tt I s0 Hs0) Hs) as Hu.
    destruct (use_with _ _ _ s) as [[r|e] s1]; simpl in *; [by apply IH|done].
  - unfold bind.
    assert (installs_once (final (ctx_apply op s))) as Hu.
    { apply (installs_once_frame s); [by rewrite ctx_apply_calls| |done].
      by apply ctx_apply_spares. }
    destruct (ctx_apply op s) as [[r|e] s1]; simpl in *; [by apply IH|done].
  - unfold bind. simpl. apply IH; [done|]. by apply (installs_once_frame s).
  - by apply IH.
Qed.

Lemma installs_once_log s (c : call V W) :
  install_names [c] = [] ->
  installs_once s -> installs_once (set_calls (calls s ++ [c]) s).
Proof.
  intros Hc. apply installs_once_frame; [|done].
  simpl. by rewrite install_names_app, Hc, app_nil_r.
Qed.

Lemma dispatch_aux_installs_once ms left index data s :
  Forall (fun m => forall d, keeps_plugins (m d)) ms ->
  installs_once s -> installs_once (final (dispatch_aux ms left index data s)).
Proof.
  intros Hall. revert index data s.
  induction left as [|left IH]; intros index data s Hs; simpl.
  - by destruct (ms !! index).
  - destruct (ms !! index) as [m|] eqn:Hm; [|done].
    unfold bind. simpl. apply exec_installs_once.
    + apply (proj1 (Forall_lookup _ _) Hall index m Hm).
    + intros d s0. apply IH.
    + by apply installs_once_log.
Qed.

Lemma call_hook_installs_once (h : Hook V W) args s :
  keeps_plugins (h args) ->
  installs_once s -> installs_once (final (call_hook h args s)).
Proof.
  intros Hh Hs. unfold call_hook, bind. simpl.
  apply exec_installs_once; [done|done|]. by apply installs_once_log.
Qed.

Lemma fanout_installs_once (hs : list (Hook V W)) args s :
  Forall (fun h => forall a, keeps_plugins (h a)) hs ->
  installs_once s -> installs_once (final (fanout hs args s)).
Proof.
  intros Hall. revert s. induction Hall as [|h hs Hh _ IH]; intros s Hs; simpl; [done|].
  unfold bind at 1. pose proof (call_hook_installs_once h args s (Hh args) Hs) as Hc.
  destruct (call_hook h args s) as [[r|e] s1]; simpl in *; [|done].
  unfold bind. specialize (IH s1 Hc).
  by destruct (fanout hs args s1) as [[rs|e] s2].
Qed.

Lemma serial_installs_once (hs : list (Hook V W)) v s :
  Forall (fun h => forall a, keeps_plugins (h a)) hs ->
  installs_once s -> installs_once (final (serial hs v s)).
Proof.
  intros Hall. revert v s.
  induction Hall as [|h hs Hh _ IH]; intros v s Hs; simpl; [done|].
  unfold bind. pose proof (call_hook_installs_once h [v] s (Hh [v]) Hs) as Hc.
  destruct (call_hook h [v] s) as [[r|e] s1]; simpl in *; [|done].
  by apply IH.
Qed.

(** X6. [install] runs at most once for a plugin name, as long as the
    user code that runs leaves the registry to [use] (it does not store
    a value under the context key "plugins" or delete that property,
    nor set, delete or clear entries of the [Map]): [use],
    [applyMiddlewares], [callHook] and [callHookSerial] then keep it so
    that no name has been installed twice and that every installed name
    is in the registry. A new system starts that way
    ([installs_once_new] below). *)
Theorem installs_once_kept s ms hs (p : Plugin V W) (options args : list V)
    (x v : V) (nm : string) :
  installs_once s ->
  keeps_plugins (install p options) ->
  middlewares_of s = Some ms ->
  Forall (fun m => forall d, keeps_plugins (m d)) ms ->
  hooks_of s nm = Some hs ->
  Forall (fun h => forall a, keeps_plugins (h a)) hs ->
  installs_once (final (use p options s))
  /\ installs_once (final (applyMiddlewares x s))
  /\ installs_once (final (callHook nm args s))
  /\ installs_once (final (callHookSerial nm v s)).
Proof.
  intros Hs Hinst Hms Hmall Hhs Hhall. split; [|split; [|split]].
  - apply use_with_installs_once; [|done].
    intros s0 Hs0. by apply exec_installs_once.
  - rewrite (applyMiddlewares_run _ _ _ Hms). by apply dispatch_aux_installs_once.
  - rewrite (callHook_run _ _ _ _ Hhs). by apply fanout_installs_once.
  - rewrite (callHookSerial_run _ _ _ _ Hhs). by apply serial_installs_once.
Qed.

Lemma installs_once_new (options : gmap string V) (w : W) :
  installs_once (createPluginSystem options w).
Proof.
  split; [apply NoDup_nil_2|]. intros reg _ n Hn. by apply elem_of_nil in Hn.
Qed.

(** *** The middleware chain as an onion *)

Lemma set_calls_nil s : set_calls (calls s ++ []) s = s.
Proof. rewrite app_nil_r. by destruct s. Qed.

Lemma dispatch_onion (fgs : list ((V -> V) * (V -> V))) :
  forall n index (x : V) s, length fgs - index = n ->
    exists l,
      dispatch (map (fun fg => around (W:=W) fg.1 fg.2) fgs) index x s
      = (Ok (fold_right (fun g acc => g acc)
               (fold_left (fun acc f => f acc) (map fst (drop index fgs)) x)
               (map snd (drop index fgs))),
         set_calls (calls s ++ l) s).
Proof.
  induction n as [|n IH]; intros index x s Hn.
  - exists []. rewrite dispatch_beyond by (rewrite length_map; lia).
    rewrite drop_ge by lia. simpl. by rewrite set_calls_nil.
  - destruct (lookup_lt_is_Some_2 fgs index) as [[f g] Hfg]; [lia|].
    rewrite dispatch_unfold, list_lookup_fmap, Hfg. simpl.
    unfold bind at 1. simpl. unfold bind.
    destruct (IH (index + 1) (f x)
                (set_calls (calls s ++ [CallMiddleware index (around f g) x]) s))
      as (l & ->); [lia|].
    rewrite (drop_S _ _ _ Hfg). simpl.
    replace (index + 1) with (S index) by lia.
    exists (CallMiddleware index (around f g) x :: l).
    unfold ret, set_calls. simpl. by rewrite <- app_assoc.
Qed.

(** X7. Middlewares that change the data on the way in and the result
    on the way out nest like the layers of an onion: the data passes
    the inward functions in registration order, reaches the end of the
    chain, and the result passes the outward functions in the reverse
    order. Nothing but the record of calls changes. *)
Theorem applyMiddlewares_onion s (fgs : list ((V -> V) * (V -> V))) (x : V) :
  middlewares_of s = Some (map (fun fg => around fg.1 fg.2) fgs) ->
  exists l,
    applyMiddlewares x s
    = (Ok (compose (map snd fgs) (pipe (map fst fgs) x)),
       set_calls (calls s ++ l) s).
Proof.
  intros Hs. rewrite (applyMiddlewares_run _ _ _ Hs).
  destruct (dispatch_onion fgs (length fgs - 0) 0 x s eq_refl) as (l & ->).
  exists l. by rewrite compose_as_fold, pipe_as_fold, drop_0.
Qed.

(** *** [applyMiddlewares] does not use up the chain *)

Lemma exec_registers_nothing b (p : prog V W b) :
  registers_nothing p ->
  forall c, cont_same_context c ->
    forall s, context (final (exec p c s)) = context s
              /\ console (final (exec p c s)) = console s.
Proof.
  intros Hp. induction Hp as [b v|b e|d k _ IH|b f k _ IH|b k _ IH];
    intros c Hc s; simpl; try done.
  - unfold bind. destruct (Hc d s) as [Hctx Hcon].
    destruct (c d s) as [[r|e] s1]; simpl in *; [|done].
    destruct (IH r c Hc s1) as [-> ->]. done.
  - unfold bind. simpl. apply (IH c Hc (set_world (f (world s)) s)).
  - apply (IH (world s) c Hc s).
Qed.

Lemma dispatch_aux_same_context ms left index (data : V) s :
  Forall (fun m => forall d, registers_nothing (m d)) ms ->
  context (final (dispatch_aux ms left index data s)) = context s
  /\ console (final (dispatch_aux ms left index data s)) = console s.
Proof.
  intros Hall. revert index data s.
  induction left as [|left IH]; intros index data s; simpl.
  - by destruct (ms !! index).
  - destruct (ms !! index) as [m|] eqn:Hm; [|done].
    unfold bind. simpl.
    apply (exec_registers_nothing true (m data)
             (proj1 (Forall_lookup _ _) Hall index m Hm data)
             (fun nextData => dispatch_aux ms left (index + 1) nextData)
             (fun d s0 => IH (index + 1) d s0)
             (set_calls (calls s ++ [CallMiddleware index m data]) s)).
Qed.

(** X8. [applyMiddlewares] itself writes nothing to the context or the
    console: when the middlewares call no method of the system and do
    not work on the context themselves, the context after the call, its
    middleware list included, is the one before the call, whether the
    call returns or throws, so the chain can be applied again and
    again. *)
Theorem applyMiddlewares_keeps_context s ms (x : V) :
  middlewares_of s = Some ms ->
  Forall (fun m => forall d, registers_nothing (m d)) ms ->
  context (final (applyMiddlewares x s)) = context s
  /\ console (final (applyMiddlewares x s)) = console s
  /\ middlewares_of (final (applyMiddlewares x s)) = Some ms.
Proof.
  intros Hs Hall. rewrite (applyMiddlewares_run _ _ _ Hs).
  destruct (dispatch_aux_same_context ms (length ms - 0) 0 x s Hall) as [Hctx Hcon].
  repeat split; [done..|].
  unfold middlewares_of in *. unfold dispatch. by rewrite Hctx.
Qed.
(** *** A hook that throws *)






(** *** A well-formed context stays well formed *)

Lemma well_formed_frame s s' :
  context s' !! "plugins" = context s !! "plugins" ->
  context s' !! "middlewares" = context s !! "middlewares" ->
  context s' !! "hooks" = context s !! "hooks" ->
  well_formed s -> well_formed s'.
Proof. intros Hp Hm Hh. unfold well_formed. by rewrite Hp, Hm, Hh. Qed.

Lemma well_formed_new (options : gmap string V) (w : W) :
  well_formed (createPluginSystem options w).
Proof. unfold well_formed. simpl. repeat split; eexists; reflexivity. Qed.

Lemma sound_run_ok {A} (a : A) s : well_formed s -> sound_run (V:=V) (Ok a, s).
Proof. by split. Qed.

Lemma sound_run_thrown {A} (e : V) s :
  well_formed s -> sound_run (A:=A) (Err (Thrown e), s).
Proof. by split. Qed.

Lemma sound_run_err {A B} (e : exn V) s :
  well_formed s -> @Err V A e <> Err TypeError -> sound_run (A:=B) (Err e, s).
Proof. intros Hs Hne. split; [done|]. simpl. intros [= ->]. by apply Hne. Qed.

Lemma useMiddleware_sound m s :
  well_formed s -> exists s', useMiddleware m s = (Ok system, s') /\ well_formed s'.
Proof.
  intros (Hp & [l Hm] & Hh). rewrite useMiddleware_run. unfold middlewares_of.
  rewrite Hm. eexists. split; [done|].
  repeat split; simpl; rewrite ?lookup_insert_eq, ?lookup_insert_ne by done; eauto.
Qed.

Lemma hook_sound nm h s :
  well_formed s -> exists s', hook nm h s = (Ok system, s') /\ well_formed s'.
Proof.
  intros (Hp & Hm & [hs Hh]). rewrite hook_run. unfold hooks_of.
  rewrite Hh. eexists. split; [done|].
  repeat split; simpl; rewrite ?lookup_insert_eq, ?lookup_insert_ne by done; eauto.
Qed.

Lemma extend_sound nm (v : V) s :
  nm <> "plugins" -> nm <> "middlewares" -> nm <> "hooks" -> nm <> "__proto__" ->
  well_formed s ->
  exists s', extend nm v s = (Ok system, s') /\ well_formed s'.
Proof.
  intros H1 H2 H3 H4 Hs. rewrite (extend_run _ _ _ H4). eexists. split; [done|].
  revert Hs. apply well_formed_frame; simpl; rewrite lookup_insert_ne by done;
    by destruct (has_property s nm).
Qed.

Lemma ctx_apply_sound (op : ctx_op V (Middleware V W) (Hook V W)) s :
  spares_slots_op op -> well_formed s ->
  exists s', ctx_apply op s = (Ok tt, s') /\ well_formed s'.
Proof.
  intros Hop Hs. pose proof Hs as ([reg Hreg] & [l Hl] & [hs Hhs]).
  pose proof (read_prop_own s _ _ Hreg) as Hr1.
  pose proof (read_prop_own s _ _ Hl) as Hr2.
  pose proof (read_prop_own s _ _ Hhs) as Hr3.
  destruct op; simpl in *; unfold bind, get_prop; simpl;
    rewrite ?Hr1, ?Hr2, ?Hr3; simpl;
    try (eexists; split; [reflexivity|];
         repeat split; simpl;
         rewrite ?lookup_insert_eq, ?lookup_insert_ne by done; eauto; fail).
  - destruct Hop as (H1 & H2 & H3 & H4). rewrite (assign_prop_plain _ _ _ H4).
    eexists. split; [done|]. revert Hs.
    apply well_formed_frame; simpl; by rewrite lookup_insert_ne.
  - destruct Hop as (H1 & H2 & H3). eexists. split; [done|]. revert Hs.
    apply well_formed_frame; simpl; by rewrite lookup_delete_ne.
Qed.

Lemma use_with_sound (run : prog V W false -> M V W V) (p : Plugin V W) options s :
  (forall s0, well_formed s0 -> sound_run (run (install p options) s0)) ->
  well_formed s -> sound_run (use_with run p options s).
Proof.
  intros Hrun Hs. pose proof Hs as ([reg Hreg] & _ & _).
  unfold use_with, bind, get_prop. simpl. rewrite (read_prop_own s _ _ Hreg).
  destruct (reg !! name p) as [q|]; simpl.
  - apply sound_run_ok. by apply (well_formed_frame s).
  - match goal with |- context [run _ ?s0] =>
      assert (well_formed s0) as Hs0;
      [|destruct (Hrun s0 Hs0) as [Hwf Hne];
        destruct (run (install p options) s0) as [[r|e] s1];
        unfold sound_run, outcome, final in *; simpl in *;
        (split; [exact Hwf|congruence]) ] end.
    destruct Hs as (_ & [l Hm] & [hs Hh]).
    repeat split; simpl; rewrite ?lookup_insert_eq, ?lookup_insert_ne by done; eauto.
Qed.

Lemma exec_sound b (p : prog V W b) :
  spares_slots p ->
  forall c, cont_sound c -> forall s, well_formed s -> sound_run (exec p c s).
Proof.
  intros Hp.
  induction Hp as [b v|b e|d k _ IH|b m k _ IH|b nm h k _ IH
                  |b nm v k H1 H2 H3 H4 _ IH
                  |b nm inst options k _ IHi _ IH|b op k Hop _ IH
                  |b f k _ IH|b k _ IH];
    intros c Hc s Hs; simpl.
  - by apply sound_run_ok.
  - by apply sound_run_thrown.
  - unfold bind. destruct (Hc d s Hs) as [Hwf Hne].
    destruct (c d s) as [[r|e] s1]; simpl in *;
      [by apply IH|by eapply sound_run_err].
  - unfold bind. destruct (useMiddleware_sound m s Hs) as (s1 & -> & Hs1).
    by apply IH.
  - unfold bind. destruct (hook_sound nm h s Hs) as (s1 & -> & Hs1).
    by apply IH.
  - unfold bind. destruct (extend_sound nm v s H1 H2 H3 H4 Hs) as (s1 & -> & Hs1).
    by apply IH.
  - unfold bind at 1.
    destruct (use_with_sound (fun body => exec body tt)
                {| name := nm; install := inst |} options s
                (fun s0 Hs0 => IHi tt I s0 Hs0) Hs) as [Hwf Hne].
    destruct (use_with _ _ _ s) as [[r|e] s1]; simpl in *;
      [by apply IH|by eapply sound_run_err].
  - unfold bind. destruct (ctx_apply_sound op s Hop Hs) as (s1 & -> & Hs1).
    by apply IH.
  - unfold bind. simpl. apply IH; [done|]. by apply (well_formed_frame s).
  - by apply IH.
Qed.

Lemma dispatch_aux_sound ms left index (data : V) s :
  Forall (fun m => forall d, spares_slots (m d)) ms ->
  well_formed s -> sound_run (dispatch_aux ms left index data s).
Proof.
  intros Hall. revert index data s.
  induction left as [|left IH]; intros index data s Hs; simpl.
  - destruct (ms !! index); by apply sound_run_ok.
  - destruct (ms !! index) as [m|] eqn:Hm; [|by apply sound_run_ok].
    unfold bind. simpl.
    apply (exec_sound true (m data)
             (proj1 (Forall_lookup _ _) Hall index m Hm data)
             (fun nextData => dispatch_aux ms left (index + 1) nextData)
             (fun d s0 Hs0 => IH (index + 1) d s0 Hs0)).
    by apply (well_formed_frame s).
Qed.

(** X11. As long as the user code that runs assigns no value to the
    properties "plugins", "middlewares" and "hooks" of the context, by
    [extend] or directly, deletes none of them and leaves [__proto__]
    alone, [use] and [applyMiddlewares] keep the context well formed (it
    holds the plugin registry, the middleware list and the hook
    registry, as that of a new system does by [well_formed_new]) and
    raise no [TypeError]: the only exceptions that leave them are those
    user code throws. User code may work on the registries and on the
    list themselves, and replace them by new ones. *)
Theorem well_formed_kept s ms (p : Plugin V W) (options : list V) (x : V) :
  well_formed s ->
  spares_slots (install p options) ->
  middlewares_of s = Some ms ->
  Forall (fun m => forall d, spares_slots (m d)) ms ->
  well_formed (final (use p options s))
  /\ outcome (use p options s) <> Err TypeError
  /\ well_formed (final (applyMiddlewares x s))
  /\ outcome (applyMiddlewares x s) <> Err TypeError.
Proof.
  intros Hs Hinst Hms Hall.
  destruct (use_with_sound (fun body => exec body tt) p options s) as [Hw1 Hn1];
    [|done|].
  { intros s0 Hs0. by apply exec_sound. }
  rewrite (applyMiddlewares_run _ _ _ Hms).
  destruct (dispatch_aux_sound ms (length ms - 0) 0 x s Hall Hs) as [Hw2 Hn2].
  done.
Qed.

(** *** Containers stay under their keys *)

Lemma put_field_typed key (f : field V W) s :
  slot_kind key f -> slots_typed s -> slots_typed (final (put_field key f s)).
Proof. intros Hf Hs. by apply map_Forall_insert_2. Qed.

Lemma assign_prop_typed key (v : V) s :
  slots_typed s -> slots_typed (final (assign_prop key v s)).
Proof.
  intros Hs. destruct (assign_prop_cases key v s) as [-> | [_ ->]].
  - by apply put_field_typed.
  - unfold slots_typed. by destruct (set_prototype_frame v s) as (-> & _).
Qed.

Lemma extend_typed nm (v : V) s :
  slots_typed s -> slots_typed (final (extend nm v s)).
Proof.
  intros Hs. unfold extend, bind.
  destruct (has_property s nm); simpl;
    match goal with |- context [assign_prop nm v ?s0] =>
      pose proof (assign_prop_typed nm v s0 Hs) as Ha;
      destruct (assign_prop nm v s0) as [[[]|e] s1] end; done.
Qed.

Lemma ctx_apply_typed (op : ctx_op V (Middleware V W) (Hook V W)) s :
  slots_typed s -> slots_typed (final (ctx_apply op s)).
Proof.
  intros Hs. destruct op; unfold ctx_apply, bind, get_prop; simpl;
    try (match goal with |- context [read_prop s ?key] =>
           destruct (read_prop s key) as [[]|] end; simpl;
         try done; by apply map_Forall_insert_2);
    try (by apply map_Forall_insert_2).
  - by apply assign_prop_typed.
  - by apply map_Forall_delete.
Qed.

Lemma use_with_typed (run : prog V W false -> M V W V) (p : Plugin V W) options s :
  (forall s0, slots_typed s0 -> slots_typed (final (run (install p options) s0))) ->
  slots_typed s -> slots_typed (final (use_with run p options s)).
Proof.
  intros Hrun Hs. unfold use_with, bind, get_prop. simpl.
  destruct (read_prop s "plugins") as [[reg| | | |]|]; try done.
  destruct (reg !! name p) as [q|]; simpl; [done|].
  match goal with |- context [run _ ?s0] =>
    assert (slots_typed s0) as Hs0 by (by apply map_Forall_insert_2);
    pose proof (Hrun s0 Hs0) as Hi;
    by destruct (run (install p options) s0) as [[r|e] s1] end.
Qed.

Lemma exec_typed b (p : prog V W b) :
  forall c, cont_typed c -> forall s, slots_typed s -> slots_typed (final (exec p c s)).
Proof.
  induction p as [b v|b e|d k IH|b m _ k IH|b nm h _ k IH|b nm v k IH
                 |b nm inst IHi options k IH|b op k IH|b f k IH|b k IH];
    intros c Hc s Hs; simpl; try done.
  - unfold bind. pose proof (Hc d s Hs) as Hn.
    destruct (c d s) as [[r|e] s1]; simpl in *; [by apply IH|done].
  - unfold bind. rewrite useMiddleware_run.
    destruct (middlewares_of s); simpl; [|done].
    apply IH; [done|]. by apply map_Forall_insert_2.
  - unfold bind. rewrite hook_run.
    destruct (hooks_of s nm); simpl; [|done].
    apply IH; [done|]. by apply map_Forall_insert_2.
  - unfold bind. pose proof (extend_typed nm v s Hs) as Hu.
    destruct (extend nm v s) as [[r|e] s1]; simpl in *; [by apply IH|done].
  - unfold bind at 1.
    pose proof (use_with_typed (fun body => exec body tt)
                  {| name := nm; install := inst |} options s
                  (fun s0 Hs0 => IHi options tt I s0 Hs0) Hs) as Hu.
    destruct (use_with _ _ _ s) as [[r|e] s1]; simpl in *; [by apply IH|done].
  - unfold bind. pose proof (ctx_apply_typed op s Hs) as Hu.
    destruct (ctx_apply op s) as [[r|e] s1]; simpl in *; [by apply IH|done].
  - unfold bind. simpl. by apply IH.
  - by apply IH.
Qed.

Lemma dispatch_aux_typed ms left index (data : V) s :
  slots_typed s -> slots_typed (final (dispatch_aux ms left index data s)).
Proof.
  revert index data s. induction left as [|left IH]; intros index data s Hs; simpl.
  - by destruct (ms !! index).
  - destruct (ms !! index) as [m|]; [|done].
    unfold bind. simpl. apply exec_typed; [|done].
    intros d s0. apply IH.
Qed.

Lemma fanout_typed (hs : list (Hook V W)) args s :
  slots_typed s -> slots_typed (final (fanout hs args s)).
Proof.
  revert s. induction hs as [|h hs IH]; intros s Hs; simpl; [done|].
  unfold bind at 1. unfold call_hook, bind at 1. simpl.
  match goal with |- context [exec (h args) tt ?s0] =>
    pose proof (exec_typed false (h args) tt I s0 Hs) as Hh;
    destruct (exec (h args) tt s0) as [[r|e] s1] end; simpl in *; [|done].
  unfold bind. specialize (IH s1 Hh).
  by destruct (fanout hs args s1) as [[rs|e] s2].
Qed.

Lemma serial_typed (hs : list (Hook V W)) v s :
  slots_typed s -> slots_typed (final (serial hs v s)).
Proof.
  revert v s. induction hs as [|h hs IH]; intros v s Hs; simpl; [done|].
  unfold bind at 1. unfold call_hook, bind at 1. simpl.
  match goal with |- context [exec (h [v]) tt ?s0] =>
    pose proof (exec_typed false (h [v]) tt I s0 Hs) as Hh;
    destruct (exec (h [v]) tt s0) as [[r|e] s1] end; simpl in *; [|done].
  by apply IH.
Qed.

(** Whatever user code does, a [Map] of plugins is found only under
    "plugins", an array of middlewares only under "middlewares" and a
    [Map] of hooks only under "hooks": the operations of the model put
    them nowhere else, so no method meets a container of another kind
    where it looks for its own. *)
Lemma slots_typed_kept s (p : Plugin V W) (options args : list V) (x v : V) nm :
  slots_typed s ->
  slots_typed (final (use p options s))
  /\ slots_typed (final (applyMiddlewares x s))
  /\ slots_typed (final (callHook nm args s))
  /\ slots_typed (final (callHookSerial nm v s)).
Proof.
  intros Hs. split; [|split; [|split]].
  - apply use_with_typed; [|done]. intros s0 Hs0. by apply exec_typed.
  - unfold applyMiddlewares, bind, get_prop. simpl.
    destruct (spread (read_prop s "middlewares")); [|done].
    by apply dispatch_aux_typed.
  - unfold callHook, bind, get_prop. simpl.
    destruct (read_prop s "hooks") as [[| |hm| |]|]; try done.
    rewrite array_map_fanout. by apply fanout_typed.
  - unfold callHookSerial, bind, get_prop. simpl.
    destruct (read_prop s "hooks") as [[| |hm| |]|]; try done.
    rewrite array_reduce_serial. by apply serial_typed.
Qed.

Lemma slots_typed_new (options : gmap string V) (w : W) :
  slots_typed (createPluginSystem options w).
Proof.
  unfold slots_typed, createPluginSystem. simpl.
  repeat (apply map_Forall_insert_2; [done|]). apply map_Forall_empty.
Qed.

(** *** Calling hooks does not use up the registry *)

Lemma call_hook_same_context (h : Hook V W) args s :
  registers_nothing (h args) ->
  context (final (call_hook h args s)) = context s
  /\ console (final (call_hook h args s)) = console s.
Proof.
  intros Hh. unfold call_hook, bind. simpl.
  apply (exec_registers_nothing false (h args) Hh tt I
           (set_calls (calls s ++ [CallHook h args]) s)).
Qed.

Lemma fanout_same_context (hs : list (Hook V W)) args s :
  Forall (fun h => forall a, registers_nothing (h a)) hs ->
  context (final (fanout hs args s)) = context s
  /\ console (final (fanout hs args s)) = console s.
Proof.
  intros Hall. revert s. induction Hall as [|h hs Hh _ IH]; intros s; simpl; [done|].
  unfold bind at 1 3. destruct (call_hook_same_context h args s (Hh args)) as [Hc1 Hc2].
  destruct (call_hook h args s) as [[r|e] s1]; simpl in *; [|done].
  unfold bind. destruct (IH s1) as [Hc3 Hc4].
  destruct (fanout hs args s1) as [[rs|e] s2]; simpl in *; by rewrite Hc3, Hc4.
Qed.

Lemma serial_same_context (hs : list (Hook V W)) v s :
  Forall (fun h => forall a, registers_nothing (h a)) hs ->
  context (final (serial hs v s)) = context s
  /\ console (final (serial hs v s)) = console s.
Proof.
  intros Hall. revert v s. induction Hall as [|h hs Hh _ IH]; intros v s; simpl; [done|].
  unfold bind. destruct (call_hook_same_context h [v] s (Hh [v])) as [Hc1 Hc2].
  destruct (call_hook h [v] s) as [[r|e] s1]; simpl in *; [|done].
  destruct (IH r s1) as [-> ->]. done.
Qed.

(** X12. [callHook] and [callHookSerial] themselves write nothing to the
    context or the console: when the hooks under the name call no method
    of the system and do not work on the context themselves, the context
    after the call is the one before it, whether the call returns or
    throws. *)
Theorem callHook_keeps_context s nm (hs : list (Hook V W)) (args : list V) (v : V) :
  hooks_of s nm = Some hs ->
  Forall (fun h => forall a, registers_nothing (h a)) hs ->
  context (final (callHook nm args s)) = context s
  /\ console (final (callHook nm args s)) = console s
  /\ context (final (callHookSerial nm v s)) = context s
  /\ console (final (callHookSerial nm v s)) = console s.
Proof.
  intros Hs Hall.
  rewrite (callHook_run _ _ _ _ Hs), (callHookSerial_run _ _ _ _ Hs).
  destruct (fanout_same_context hs args s Hall) as [H1 H2].
  destruct (serial_same_context hs v s Hall) as [H3 H4].
  done.
Qed.
End MoreProperties.

(** * The further properties at concrete systems *)

Lemma useMiddleware_each_appends_witness :
  let ms := [forward; add_one_after] in
  let r := useMiddleware_each ms (with_middlewares [count_calls]) in
  middlewares_of (with_middlewares [count_calls]) = Some [count_calls]
  /\ outcome r = Ok system
  /\ middlewares_of (final r) = Some ([count_calls] ++ ms)
  /\ (forall key, key <> "middlewares" ->
        context (final r) !! key = context (with_middlewares [count_calls]) !! key)
  /\ console (final r) = console (with_middlewares [count_calls])
  /\ world (final r) = world (with_middlewares [count_calls])
  /\ calls (final r) = calls (with_middlewares [count_calls]).
Proof.
  intros ms r. split; [reflexivity|].
  apply (useMiddleware_each_appends (with_middlewares [count_calls])
           [count_calls] ms). reflexivity.
Defined.

Lemma hook_each_buckets_witness :
  let regs := [("a", pure_hook plus_one); ("b", pure_hook times_two);
               ("a", throwing_hook 9%Z)] in
  hooks_of with_hooks "a" = Some []
  /\ outcome (hook_each regs with_hooks) = Ok system
  /\ hooks_of (final (hook_each regs with_hooks)) "a"
     = Some ([] ++ hooks_for "a" regs)
  /\ hooks_for "a" regs = [pure_hook plus_one; throwing_hook 9%Z].
Proof.
  intros regs. split; [reflexivity|].
  destruct (hook_each_buckets with_hooks regs "a" []) as [Hout Hh]; [reflexivity|].
  split; [exact Hout|]. split; [exact Hh|reflexivity].
Defined.

Lemma use_then_getPlugin_witness :
  let s2 := final (use failing_plugin [] fresh) in
  context fresh !! "plugins" = Some (FPlugins ∅)
  /\ (∅ : gmap string (Plugin Z nat)) !! name failing_plugin = None
  /\ keeps_plugins (install failing_plugin [])
  /\ name clobbering_plugin = name failing_plugin
  /\ outcome (use failing_plugin [] fresh) = Err (Thrown 13%Z)
  /\ getPlugin (name failing_plugin) fresh = (Ok None, fresh)
  /\ getPlugin (name failing_plugin) s2 = (Ok (Some failing_plugin), s2)
  /\ use clobbering_plugin [1%Z] s2
     = (Ok system,
        set_console (console s2 ++ ["Plugin " +:+ dquote +:+ name failing_plugin
                                    +:+ dquote +:+ " is already registered."]) s2).
Proof.
  intros s2.
  assert (keeps_plugins (install failing_plugin [])) as Hkeeps.
  { simpl. repeat constructor. }
  split; [reflexivity|]. split; [reflexivity|]. split; [exact Hkeeps|].
  split; [reflexivity|]. split; [reflexivity|].
  apply (use_then_getPlugin fresh ∅ failing_plugin clobbering_plugin [] [1%Z]);
    [reflexivity|reflexivity|exact Hkeeps|reflexivity].
Defined.

Lemma use_keeps_registered_witness :
  let s := final (use counting_plugin [] fresh) in
  getPlugin "p" s = (Ok (Some counting_plugin), s)
  /\ keeps_plugins (install wiring_plugin [])
  /\ getPlugin "p" (final (use wiring_plugin [] s))
     = (Ok (Some counting_plugin), final (use wiring_plugin [] s)).
Proof.
  intros s.
  assert (keeps_plugins (install wiring_plugin [])) as Hkeeps.
  { simpl. repeat constructor. discriminate. }
  split; [reflexivity|]. split; [exact Hkeeps|].
  apply (use_keeps_registered s "p" counting_plugin wiring_plugin []);
    [reflexivity|exact Hkeeps].
Defined.

Lemma installs_once_kept_witness :
  let s := final (use wiring_plugin [] (final (use counting_plugin [] fresh))) in
  installs_once s
  /\ keeps_plugins (install counting_plugin [])
  /\ middlewares_of s = Some [forward]
  /\ Forall (fun m : Middleware Z nat => forall d, keeps_plugins (m d)) [forward]
  /\ hooks_of s "e" = Some [pure_hook plus_one]
  /\ Forall (fun h : Hook Z nat => forall a, keeps_plugins (h a)) [pure_hook plus_one]
  /\ install_names (calls s) = ["p"; "w"]
  /\ installs_once (final (use counting_plugin [] s))
  /\ installs_once (final (applyMiddlewares 5%Z s))
  /\ installs_once (final (callHook "e" [5%Z] s))
  /\ installs_once (final (callHookSerial "e" 5%Z s)).
Proof.
  intros s.
  assert (keeps_plugins (install counting_plugin [])) as Hinst.
  { simpl. repeat constructor. }
  assert (Forall (fun m : Middleware Z nat => forall d, keeps_plugins (m d)) [forward])
    as Hmall.
  { repeat first [apply Forall_nil_2 | apply Forall_cons_2];
      intros d; repeat constructor. }
  assert (Forall (fun h : Hook Z nat => forall a, keeps_plugins (h a))
            [pure_hook plus_one]) as Hhall.
  { repeat first [apply Forall_nil_2 | apply Forall_cons_2];
      intros a; constructor. }
  assert (installs_once s) as Hs.
  { apply use_with_installs_once.
    - intros s0 Hs0. apply exec_installs_once; [|done|done].
      simpl. repeat constructor. discriminate.
    - apply use_with_installs_once; [|apply installs_once_new].
      intros s0 Hs0. by apply exec_installs_once. }
  split; [exact Hs|]. split; [exact Hinst|]. split; [reflexivity|].
  split; [exact Hmall|]. split; [reflexivity|]. split; [exact Hhall|].
  split; [reflexivity|].
  apply (installs_once_kept s [forward] [pure_hook plus_one] counting_plugin
           [] [5%Z] 5%Z 5%Z "e" Hs Hinst eq_refl Hmall eq_refl Hhall).
Defined.

Lemma applyMiddlewares_onion_witness :
  let s := with_middlewares (map (fun fg => around fg.1 fg.2) onion_layers) in
  middlewares_of s = Some (map (fun fg => around fg.1 fg.2) onion_layers)
  /\ (exists l,
        applyMiddlewares 5%Z s
        = (Ok (compose (map snd onion_layers) (pipe (map fst onion_layers) 5%Z)),
           set_calls (calls s ++ l) s))
  /\ compose (map snd onion_layers) (pipe (map fst onion_layers) 5%Z) = 28%Z.
Proof.
  intros s. split; [reflexivity|]. split; [|reflexivity].
  apply (applyMiddlewares_onion s onion_layers 5%Z). reflexivity.
Defined.

Lemma applyMiddlewares_keeps_context_witness :
  let ms := [count_calls; add_one_after; answer_zero] in
  let s := with_middlewares ms in
  middlewares_of s = Some ms
  /\ Forall (fun m => forall d, registers_nothing (m d)) ms
  /\ context (final (applyMiddlewares 5%Z s)) = context s
  /\ console (final (applyMiddlewares 5%Z s)) = console s
  /\ middlewares_of (final (applyMiddlewares 5%Z s)) = Some ms.
Proof.
  intros ms s.
  assert (Forall (fun m : Middleware Z nat => forall d, registers_nothing (m d)) ms)
    as Hall.
  { repeat first [apply Forall_nil_2 | apply Forall_cons_2];
      intros d; repeat constructor. }
  split; [reflexivity|]. split; [exact Hall|].
  apply (applyMiddlewares_keeps_context s ms 5%Z); [reflexivity|exact Hall].
Defined.



Lemma well_formed_kept_witness :
  let ms := [register_then_forward; add_one_after] in
  let s := with_middlewares ms in
  well_formed s
  /\ spares_slots (install wiring_plugin [])
  /\ middlewares_of s = Some ms
  /\ Forall (fun m => forall d, spares_slots (m d)) ms
  /\ well_formed (final (use wiring_plugin [] s))
  /\ outcome (use wiring_plugin [] s) <> Err TypeError
  /\ well_formed (final (applyMiddlewares 5%Z s))
  /\ outcome (applyMiddlewares 5%Z s) <> Err TypeError.
Proof.
  intros ms s.
  assert (well_formed s) as Hs.
  { repeat split; eexists; reflexivity. }
  assert (spares_slots (install wiring_plugin [])) as Hinst.
  { simpl. repeat constructor; discriminate. }
  assert (Forall (fun m : Middleware Z nat => forall d, spares_slots (m d)) ms)
    as Hall.
  { repeat first [apply Forall_nil_2 | apply Forall_cons_2];
      intros d; repeat constructor. }
  split; [exact Hs|]. split; [exact Hinst|]. split; [reflexivity|].
  split; [exact Hall|].
  apply (well_formed_kept s ms wiring_plugin [] 5%Z Hs Hinst); [reflexivity|exact Hall].
Defined.

Lemma callHook_keeps_context_witness :
  let hs := [pure_hook plus_one; throwing_hook 9%Z; pure_hook times_two] in
  let s := with_throwing_hooks in
  hooks_of s "e" = Some hs
  /\ Forall (fun h => forall a, registers_nothing (h a)) hs
  /\ context (final (callHook "e" [5%Z] s)) = context s
  /\ console (final (callHook "e" [5%Z] s)) = console s
  /\ context (final (callHookSerial "e" 5%Z s)) = context s
  /\ console (final (callHookSerial "e" 5%Z s)) = console s.
Proof.
  intros hs s.
  assert (Forall (fun h : Hook Z nat => forall a, registers_nothing (h a)) hs)
    as Hall.
  { repeat first [apply Forall_nil_2 | apply Forall_cons_2];
      intros a; constructor. }
  split; [reflexivity|]. split; [exact Hall|].
  apply (callHook_keeps_context s "e" hs [5%Z] 5%Z); [reflexivity|exact Hall].
Defined.

(** A plugin whose [install] registers a middleware, a hook and an
    extension: all three are in effect when [use] has returned. *)
Example wiring_plugin_installed :
  let s := final (use wiring_plugin [] fresh) in
  outcome (use wiring_plugin [] fresh) = Ok system
  /\ middlewares_of s = Some [forward]
  /\ hooks_of s "e" = Some [pure_hook plus_one]
  /\ context s !! "log" = Some (FAny 1%Z)
  /\ outcome (callHookSerial "e" 4%Z s) = Ok 5%Z.
Proof. repeat split. Qed.
